(** * Comment translation: the hover server's [Comment] class and the
      editor-side helpers of the extension

    The development follows the two source files:

    - [Module Comment] embeds the class [Comment] (settings, the parse
      cache, [getComment]).  Promises are sequenced with a small
      state-and-trace monad; every call to a collaborator is recorded
      in the trace.  This module describes a query that is not
      interrupted and whose collaborators answer.
    - [Module Rejections] embeds the same methods with collaborators
      whose promises may reject; no method catches a rejection.
    - [Module Lifecycle] describes the class over time: the document
      store's notifications, configuration updates and queries, where
      a query suspended at [await createGrammar] lets other handlers
      run before it resumes.
    - [Module Extension] embeds [updateLanguageList],
      [getTranslationPromise] and the [selectionContains] request handler
      of the editor side. *)

From Stdlib Require Import Ascii.
From stdpp Require Import base strings list gmap fin_maps.

Open Scope string_scope.
Open Scope list_scope.

(** JavaScript truthiness of a string: [!!s] holds unless [s] is empty. *)
Definition truthy (s : string) : bool := negb (String.eqb s "").

(** ** Protocol data shared by both sides *)

Record Position := mkPosition { line : nat; character : nat }.

Record Range := mkRange { start : Position; end_ : Position }.

Record TextDocumentPositionParams := mkParams {
  textDocument_uri : string;
  position : Position
}.

(** [humanize] is an optional property; an absent one is falsy. *)
Record ICommentBlock := mkBlock {
  humanize : bool;
  range : Range;
  comment : string
}.

Record Hover := mkHover { contents : list string; hover_range : Range }.

#[global] Instance Position_eq_dec : EqDecision Position.
Proof. solve_decision. Defined.

#[global] Instance Range_eq_dec : EqDecision Range.
Proof. solve_decision. Defined.

Module Comment.

Record TextDocument := mkDoc {
  uri : string;
  languageId : string;
  version : nat;
  text : string
}.

Record ICommentTranslateSettings := mkSettings {
  multiLineMerge : bool;
  preferredLanguage : string
}.

(** The argument of [setSetting]: [preferredLanguage] may be missing. *)
Record NewSetting := mkNewSetting {
  new_multiLineMerge : bool;
  new_preferredLanguage : option string
}.

(** An entry of the language table ([languages.js]). *)
Record Language := mkLanguage { name : string; value : string }.

Section Definitions.

(** Grammar handles are opaque to this class. *)
Context {IGrammar : Type}.

(** What [new CommentParse(textDocument, grammar, multiLineMerge)] is
    built from.  The flag is a boolean passed by value. *)
Record CommentParse := mkParse {
  parse_document : TextDocument;
  parse_grammar : IGrammar;
  parse_multiLineMerge : bool
}.

(** The fields of the class; [_documents] is the synchronised document
    store handed to the constructor. *)
Record Comment := mkComment {
  _setting : ICommentTranslateSettings;
  _commentParseCache : gmap string CommentParse;
  _documents : gmap string TextDocument
}.

(** Calls that leave the class. *)
Inductive Event :=
| CreateGrammar (lang : string)
| SelectionContains (p : TextDocumentPositionParams)
| ComputeText (parse : CommentParse) (pos : Position)
| Translate (txt : string) (to : string).

(** Collaborators: the grammar registry, the locate/merge/extract
    pipeline of [CommentParse], the word splitter, the translation
    service, the language table and the editor answering
    [selectionContains].  [api txt to] is [None] when the reply or its
    data is missing ([!res || !res.data]) and [Some t] when the reply
    has data whose first element is the text [t]; the service answers a
    request for one text with one text, and a data array without first
    element is not covered. *)
Variable createGrammar : string → option IGrammar.
Variable computeText : CommentParse → Position → option ICommentBlock.
Variable humanizeString : string → string.
Variable api : string → string → option string.
Variable languages : list Language.
Variable host : TextDocumentPositionParams → option ICommentBlock.

(** *** Sequencing *)

Definition M (A : Type) : Type := Comment → A * Comment * list Event.

Definition result {A} (r : A * Comment * list Event) : A := r.1.1.
Definition after {A} (r : A * Comment * list Event) : Comment := r.1.2.
Definition trace {A} (r : A * Comment * list Event) : list Event := r.2.

#[local] Instance M_ret : MRet M := λ A a c, (a, c, []).

#[local] Instance M_bind : MBind M := λ A B k m c,
  let r1 := m c in
  let r2 := k (result r1) (after r1) in
  (result r2, after r2, trace r1 ++ trace r2).

Definition emit (e : Event) : M unit := λ c, (tt, c, [e]).
Definition this : M Comment := λ c, (c, c, []).
Definition update (f : Comment → Comment) : M unit := λ c, (tt, f c, []).

(** *** The class *)

Definition constructor (userLanguage : string) (documents : gmap string TextDocument)
  : Comment :=
  {| _setting := {| multiLineMerge := false; preferredLanguage := userLanguage |};
     _commentParseCache := ∅;
     _documents := documents |}.

Definition find_language (n : string) : option Language :=
  find (λ element, String.eqb (name element) n) languages.

(** The name under which [setSetting] looks the language up: the new
    one, or the stored one when the new one is missing or empty. *)
Definition wanted_name (newSetting : NewSetting) (c : Comment) : string :=
  match new_preferredLanguage newSetting with
  | Some l => if truthy l then l else preferredLanguage (_setting c)
  | None => preferredLanguage (_setting c)
  end.

Definition setSetting (newSetting : NewSetting) (c : Comment) : Comment :=
  let code :=
    match find_language (wanted_name newSetting c) with
    | Some l => value l
    | None => "en"
    end in
  {| _setting := {| multiLineMerge := new_multiLineMerge newSetting;
                    preferredLanguage := code |};
     _commentParseCache := _commentParseCache c;
     _documents := _documents c |}.

(** The translation call for a service that answers;
    [Rejections.translate] is the call for one that may reject. *)
Definition translate (txt : string) : M string :=
  c ← this;
  let to := preferredLanguage (_setting c) in
  _ ← emit (Translate txt to);
  mret (match api txt to with
        | Some t => t
        | None => "Google Translate API Error"
        end).

Definition _getSelectionContainPosition (p : TextDocumentPositionParams)
  : M (option ICommentBlock) :=
  _ ← emit (SelectionContains p);
  mret (host p).

Definition key (d : TextDocument) : string := languageId d +:+ "-" +:+ uri d.

Definition _removeCommentParse (d : TextDocument) (c : Comment) : Comment :=
  {| _setting := _setting c;
     _commentParseCache := delete (key d) (_commentParseCache c);
     _documents := _documents c |}.

Definition _getCommentParse (d : TextDocument) : M (option CommentParse) :=
  c ← this;
  match _commentParseCache c !! key d with
  | Some p => mret (Some p)
  | None =>
      _ ← emit (CreateGrammar (languageId d));
      match createGrammar (languageId d) with
      | None => mret None
      | Some grammar =>
          let parse := mkParse d grammar (multiLineMerge (_setting c)) in
          _ ← update (λ c, {| _setting := _setting c;
                              _commentParseCache := <[key d := parse]> (_commentParseCache c);
                              _documents := _documents c |});
          mret (Some parse)
      end
  end.

(** [a || b]: the pipeline runs only when the editor returned nothing. *)
Definition block_at (parse : CommentParse) (p : TextDocumentPositionParams)
  : M (option ICommentBlock) :=
  selected ← _getSelectionContainPosition p;
  match selected with
  | Some b => mret (Some b)
  | None =>
      _ ← emit (ComputeText parse (position p));
      mret (computeText parse (position p))
  end.

Definition hover_of (b : ICommentBlock) : M Hover :=
  if humanize b then
    let humanized := humanizeString (comment b) in
    targetLanguageComment ← translate humanized;
    mret (mkHover [humanized +:+ " => " +:+ targetLanguageComment] (range b))
  else
    targetLanguageComment ← translate (comment b);
    mret (mkHover [targetLanguageComment] (range b)).

Definition getComment (p : TextDocumentPositionParams) : M (option Hover) :=
  c ← this;
  match _documents c !! textDocument_uri p with
  | None => mret None
  | Some textDocument =>
      parse ← _getCommentParse textDocument;
      match parse with
      | None => mret None
      | Some parse =>
          block ← block_at parse p;
          match block with
          | Some b => h ← hover_of b; mret (Some h)
          | None => mret None
          end
      end
  end.

(** *** Vocabulary for the statements *)

(** The block [getComment] works on: the editor's, else the pipeline's. *)
Definition chosen_block (parse : CommentParse) (p : TextDocumentPositionParams)
  : option ICommentBlock :=
  match host p with
  | Some b => Some b
  | None => computeText parse (position p)
  end.

(** The calls [block_at] makes. *)
Definition block_events (parse : CommentParse) (p : TextDocumentPositionParams)
  : list Event :=
  SelectionContains p ::
  match host p with
  | Some _ => []
  | None => [ComputeText parse (position p)]
  end.

(** The text handed to the translation service for a block. *)
Definition sent_text (b : ICommentBlock) : string :=
  if humanize b then humanizeString (comment b) else comment b.

Definition translated (txt to : string) : string :=
  match api txt to with
  | Some t => t
  | None => "Google Translate API Error"
  end.

Definition hover_for (to : string) (b : ICommentBlock) : Hover :=
  if humanize b then
    mkHover [humanizeString (comment b) +:+ " => "
             +:+ translated (humanizeString (comment b)) to] (range b)
  else mkHover [translated (comment b) to] (range b).

Definition is_ComputeText (e : Event) : bool :=
  match e with ComputeText _ _ => true | _ => false end.

Definition is_Translate (e : Event) : bool :=
  match e with Translate _ _ => true | _ => false end.

Definition is_CreateGrammar (e : Event) : bool :=
  match e with CreateGrammar _ => true | _ => false end.

Definition is_SelectionContains (e : Event) : bool :=
  match e with SelectionContains _ => true | _ => false end.

End Definitions.

End Comment.

(** ** Collaborators that may reject

    [createGrammar], the [selectionContains] request and the
    translation call return promises.  Here each of them may reject;
    the methods are those of [Comment] with every [await] exposed to
    the rejection, which no method catches. *)
Module Rejections.
Import Comment.

Inductive Answer (A : Type) :=
| Answered (a : A)
| Refused (reason : string).
Arguments Answered {A} a.
Arguments Refused {A} reason.

(** How a call ends: it returns, or it throws (the promise rejects). *)
Inductive Settled (A : Type) :=
| Returned (a : A)
| Threw (reason : string).
Arguments Returned {A} a.
Arguments Threw {A} reason.

Section Definitions.

Context {IGrammar : Type}.
Variable createGrammar : string → Answer (option IGrammar).
Variable computeText : @CommentParse IGrammar → Position → option ICommentBlock.
Variable humanizeString : string → string.
Variable api : string → string → Answer (option string).
Variable host : TextDocumentPositionParams → Answer (option ICommentBlock).

Definition P (A : Type) : Type :=
  @Comment IGrammar → Settled A * @Comment IGrammar * list (@Event IGrammar).

Definition outcome {A} (r : Settled A * @Comment IGrammar * list (@Event IGrammar))
  : Settled A := r.1.1.

#[local] Instance P_ret : MRet P := λ A a c, (Returned a, c, []).

(** A rejection ends the method: what follows the [await] is skipped. *)
#[local] Instance P_bind : MBind P := λ A B k m c,
  let r1 := m c in
  match outcome r1 with
  | Returned a =>
      let r2 := k a (after r1) in
      (outcome r2, after r2, trace r1 ++ trace r2)
  | Threw reason => (Threw reason, after r1, trace r1)
  end.

Definition emit (e : Event) : P unit := λ c, (Returned tt, c, [e]).
Definition this : P Comment := λ c, (Returned c, c, []).
Definition update (f : Comment → Comment) : P unit := λ c, (Returned tt, f c, []).

(** [await] of a collaborator's promise. *)
Definition await {A} (a : Answer A) : P A := λ c,
  match a with
  | Answered x => (Returned x, c, [])
  | Refused reason => (Threw reason, c, [])
  end.

Definition translate (txt : string) : P string :=
  c ← this;
  let to := preferredLanguage (_setting c) in
  _ ← emit (Translate txt to);
  res ← await (api txt to);
  mret (match res with
        | Some t => t
        | None => "Google Translate API Error"
        end).

Definition _getSelectionContainPosition (p : TextDocumentPositionParams)
  : P (option ICommentBlock) :=
  _ ← emit (SelectionContains p);
  await (host p).

Definition _getCommentParse (d : TextDocument) : P (option CommentParse) :=
  c ← this;
  match _commentParseCache c !! key d with
  | Some p => mret (Some p)
  | None =>
      _ ← emit (CreateGrammar (languageId d));
      grammar ← await (createGrammar (languageId d));
      match grammar with
      | None => mret None
      | Some grammar =>
          let parse := mkParse d grammar (multiLineMerge (_setting c)) in
          _ ← update (λ c, {| _setting := _setting c;
                              _commentParseCache := <[key d := parse]> (_commentParseCache c);
                              _documents := _documents c |});
          mret (Some parse)
      end
  end.

Definition block_at (parse : CommentParse) (p : TextDocumentPositionParams)
  : P (option ICommentBlock) :=
  selected ← _getSelectionContainPosition p;
  match selected with
  | Some b => mret (Some b)
  | None =>
      _ ← emit (ComputeText parse (position p));
      mret (computeText parse (position p))
  end.

Definition hover_of (b : ICommentBlock) : P Hover :=
  if humanize b then
    let humanized := humanizeString (comment b) in
    targetLanguageComment ← translate humanized;
    mret (mkHover [humanized +:+ " => " +:+ targetLanguageComment] (range b))
  else
    targetLanguageComment ← translate (comment b);
    mret (mkHover [targetLanguageComment] (range b)).

Definition getComment (p : TextDocumentPositionParams) : P (option Hover) :=
  c ← this;
  match _documents c !! textDocument_uri p with
  | None => mret None
  | Some textDocument =>
      parse ← _getCommentParse textDocument;
      match parse with
      | None => mret None
      | Some parse =>
          block ← block_at parse p;
          match block with
          | Some b => h ← hover_of b; mret (Some h)
          | None => mret None
          end
      end
  end.

(** The block of a query when the editor answers [selected]. *)
Definition block_from (selected : option ICommentBlock) (parse : CommentParse)
    (p : TextDocumentPositionParams) : option ICommentBlock :=
  match selected with
  | Some b => Some b
  | None => computeText parse (position p)
  end.

End Definitions.

End Rejections.

(** ** The class over time

    The constructor subscribes [_removeCommentParse] to the store's
    [onDidClose] and [onDidChangeContent].  The store follows the
    language-server protocol: a document is opened once before it is
    changed or closed, opening also reports a content change, and a
    change keeps the document's uri and language id.

    The store's handlers and [setSetting] are synchronous.  A query is
    not: on a cache miss [_getCommentParse] suspends at
    [await createGrammar], between the test of the cache and the
    insertion, and other handlers may run before it resumes.  The later
    suspensions of a query (the request to the editor, the translation)
    are followed by no change of the class. *)
Module Lifecycle.
Import Comment.

Section Steps.

Context {IGrammar : Type}.
Variable createGrammar : string → option IGrammar.

Definition with_documents (docs : gmap string TextDocument)
    (c : @Comment IGrammar) : Comment :=
  {| _setting := _setting c;
     _commentParseCache := _commentParseCache c;
     _documents := docs |}.

Definition opened (d : TextDocument) (c : @Comment IGrammar) : Comment :=
  _removeCommentParse d (with_documents (<[uri d := d]> (_documents c)) c).

(** [d] is the document before the change; the store keeps its uri and
    language id and replaces version and text. *)
Definition changed (d : TextDocument) (v : nat) (t : string)
    (c : @Comment IGrammar) : Comment :=
  let d' := mkDoc (uri d) (languageId d) v t in
  _removeCommentParse d' (with_documents (<[uri d := d']> (_documents c)) c).

Definition closed (d : TextDocument) (c : @Comment IGrammar) : Comment :=
  _removeCommentParse d (with_documents (delete (uri d) (_documents c)) c).

(** [_getCommentParse] from its [await createGrammar] on: the parse is
    built from the document object the query holds, with the settings
    of that moment, and stored. *)
Definition resumed (d : TextDocument) (c : @Comment IGrammar) : Comment :=
  match createGrammar (languageId d) with
  | Some grammar =>
      {| _setting := _setting c;
         _commentParseCache :=
           <[key d := mkParse d grammar (multiLineMerge (_setting c))]>
             (_commentParseCache c);
         _documents := _documents c |}
  | None => c
  end.

(** The document object a suspended query holds.  The store updates an
    open document in place, so while the document stays open the query
    sees the store's content for its uri; a close detaches the object
    with the content it had. *)
Inductive Held :=
| Attached (u : string)
| Detached (d : TextDocument).

Definition detach (d : TextDocument) (h : Held) : Held :=
  match h with
  | Attached u => if String.eqb u (uri d) then Detached d else h
  | Detached _ => h
  end.

Definition content (c : @Comment IGrammar) (h : Held) : option TextDocument :=
  match h with
  | Attached u => _documents c !! u
  | Detached d => Some d
  end.

(** A step takes the class and the objects held by the suspended
    queries.  [hover] is a query that is not interrupted. *)
Inductive step : @Comment IGrammar * list Held → @Comment IGrammar * list Held → Prop :=
| didOpen c waiting d :
    _documents c !! uri d = None →
    step (c, waiting) (opened d c, waiting)
| didChangeContent c waiting d v t :
    _documents c !! uri d = Some d →
    step (c, waiting) (changed d v t c, waiting)
| didClose c waiting d :
    _documents c !! uri d = Some d →
    step (c, waiting) (closed d c, detach d <$> waiting)
| hover c waiting computeText humanizeString api host p :
    step (c, waiting)
         (after (getComment createGrammar computeText humanizeString api host p c),
          waiting)
| hover_suspend c waiting p d :
    _documents c !! textDocument_uri p = Some d →
    _commentParseCache c !! key d = None →
    step (c, waiting) (c, Attached (uri d) :: waiting)
| hover_resume c before h rest d :
    content c h = Some d →
    step (c, before ++ h :: rest) (resumed d c, before ++ rest)
| configure c waiting languages newSetting :
    step (c, waiting) (setSetting languages newSetting c, waiting).

Inductive running : @Comment IGrammar * list Held → Prop :=
| running_init userLanguage : running (constructor userLanguage ∅, [])
| running_step s s' : running s → step s s' → running s'.

Definition reachable (c : @Comment IGrammar) : Prop :=
  ∃ waiting, running (c, waiting).




End Steps.

End Lifecycle.

(** ** The editor side *)
Module Extension.

(** *** Recently used languages *)

Fixpoint findIndex {A} (p : A → bool) (l : list A) : option nat :=
  match l with
  | [] => None
  | x :: rest => if p x then Some 0 else S <$> findIndex p rest
  end.

(** [recentlyUsed.splice(index, 1)] then [recentlyUsed.splice(0, 0, lang)]. *)
Definition updateLanguageList (selectedLanguage : string) (recentlyUsed : list string)
  : list string :=
  let removed :=
    match findIndex (λ r, String.eqb r selectedLanguage) recentlyUsed with
    | Some index => delete index recentlyUsed
    | None => recentlyUsed
    end in
  selectedLanguage :: removed.

(** What is left of the list once the first occurrence is spliced out. *)
Definition spliced (lang : string) (l : list string) : list string :=
  match findIndex (λ r, String.eqb r lang) l with
  | Some index => delete index l
  | None => l
  end.

Definition others (lang : string) (l : list string) : list string :=
  filter (λ r, r ≠ lang) l.

(** *** The [selectionContains] request handler *)

Definition isBefore (p q : Position) : bool :=
  ((line p <? line q) || ((line p =? line q) && (character p <? character q)))%nat.

(** [Selection.isEmpty] and [Selection.contains(position)] of the editor
    API: a selection is empty when its ends coincide, and it contains
    the positions from its start to its end, both included. *)
Definition isEmpty (s : Range) : bool := bool_decide (start s = end_ s).

Definition contains (s : Range) (p : Position) : bool :=
  negb (isBefore p (start s)) && negb (isBefore (end_ s) p).

Record TextEditor := mkEditor {
  document_uri : string;
  document_getText : Range → string;
  selections : list Range
}.

Definition selectionContains (activeTextEditor : option TextEditor)
    (textDocumentPosition : TextDocumentPositionParams) : option ICommentBlock :=
  match activeTextEditor with
  | Some editor =>
      if String.eqb (document_uri editor) (textDocument_uri textDocumentPosition) then
        let position := mkPosition (line (position textDocumentPosition))
                                   (character (position textDocumentPosition)) in
        match find (λ selection, negb (isEmpty selection) && contains selection position)
                   (selections editor) with
        | Some selection =>
            Some {| humanize := false;
                    range := selection;
                    comment := document_getText editor selection |}
        | None => None
        end
      else None
  | None => None
  end.

(** *** Translating a selection *)

Record ProxyAuthConfig := mkAuth { username : string; password : string }.

(** What [getProxyConfig] reads from the workspace configuration. *)
Record ProxyConfig := mkProxyConfig {
  host : option string;
  port : option string;
  proxy_username : option string;
  proxy_password : option string
}.

Record InteralProxyConfig := mkProxy {
  proxy_host : string;
  proxy_port : option string;
  auth : option ProxyAuthConfig
}.

Record TranslationConfiguration := mkConfiguration {
  to : option string;
  proxy : option InteralProxyConfig
}.

(** The options handed to the translation package: the target language
    and the proxy behind the agent, if one is configured. *)
Record TranslateOptions := mkOptions {
  options_to : string;
  options_proxy : option InteralProxyConfig
}.

Record TranslatorRes := mkRes { res_text : string }.

(** How a call to the translation package ends: with a response, which
    may be missing, or with an error. *)
Inductive Reply :=
| Fulfilled (res : option TranslatorRes)
| Failed (message : string).

(** How the promise of [getTranslationPromise] ends; [Pending] is a
    promise that neither callback ever settles. *)
Inductive Outcome {Selection : Type} :=
| Resolved (selection : Selection) (translation : string)
| Rejected (message : string)
| Pending.
Arguments Outcome : clear implicits.

Section Translation.

Context {Selection : Type}.
Variable gti : string → TranslateOptions → Reply.
Variable humanizeString : string → string.
Variable camelcase : string → string.
Variable getProxyConfig : ProxyConfig.

Definition is_set (o : option string) : bool :=
  match o with Some s => truthy s | None => false end.

(** The options [translate] builds: without a proxy the target stays
    ["en"]. *)
Definition gotopts (options : TranslationConfiguration) : TranslateOptions :=
  match proxy options with
  | Some p => {| options_to := default "en" (to options); options_proxy := Some p |}
  | None => {| options_to := "en"; options_proxy := None |}
  end.

Definition translate (txt : string) (options : TranslationConfiguration) : Reply :=
  gti txt (gotopts options).

Definition translationConfiguration (selectedLanguage : string)
  : TranslationConfiguration :=
  let cfg := getProxyConfig in
  {| to := Some selectedLanguage;
     proxy :=
       if is_set (host cfg) then
         Some {| proxy_host := default "" (host cfg);
                 proxy_port := port cfg;
                 auth :=
                   if is_set (proxy_username cfg) && is_set (proxy_password cfg) then
                     Some {| username := default "" (proxy_username cfg);
                             password := default "" (proxy_password cfg) |}
                   else None |}
       else None |}.

Definition issue : string := "Google Translation API issue".

(** The outcome of the promise together with the texts sent to the
    translation package, in order. *)
Definition getTranslationPromise (selectedText selectedLanguage : string)
    (selection : Selection) : Outcome Selection * list string :=
  let configuration := translationConfiguration selectedLanguage in
  match translate selectedText configuration with
  | Failed message => (Rejected (issue +:+ ": " +:+ message), [selectedText])
  | Fulfilled None => (Rejected issue, [selectedText])
  | Fulfilled (Some translateRes) =>
      if truthy (res_text translateRes) then
        if String.eqb (res_text translateRes) selectedText then
          let humanized := humanizeString selectedText in
          (match translate humanized configuration with
           | Failed _ => Pending
           | Fulfilled None => Pending
           | Fulfilled (Some translatorRes) =>
               if truthy (res_text translatorRes) && truthy (res_text translateRes)
               then Resolved selection (camelcase (res_text translateRes))
               else Rejected issue
           end, [selectedText; humanized])
        else (Resolved selection (res_text translateRes), [selectedText])
      else (Rejected issue, [selectedText])
  end.

End Translation.

(** *** The commands

    [Range_of] is the editor's range constructor and [decode] the
    entity decoder applied to a translation before it replaces the
    selection. *)
Section Commands.

Variable gti : string → TranslateOptions → Reply.
Variable humanizeString : string → string.
Variable camelcase : string → string.
Variable getProxyConfig : ProxyConfig.
Variable Range_of : Position → Position → Range.
Variable decode : string → string.
Variable Languages : list Comment.Language.

Definition getSelectedText (document : Range → string) (selection : Range) : string :=
  let charRange :=
    Range_of (mkPosition (line (start selection)) (character (start selection)))
             (mkPosition (line (end_ selection)) (character (end_ selection))) in
  document charRange.

Definition getSelectedLineText (document : Range → string) (selection : Range) : string :=
  document (Range_of (start selection) (end_ selection)).

Definition getTranslationsPromiseArray (selections : list Range)
    (document : Range → string) (selectedLanguage : string)
  : list (Outcome Range * list string) :=
  map (λ selection,
         let selectedText := getSelectedText document selection in
         getTranslationPromise gti humanizeString camelcase getProxyConfig
           selectedText selectedLanguage selection)
      selections.

Definition getTranslationsPromiseArrayLine (selections : list Range)
    (document : Range → string) (selectedLanguage : string)
  : list (Outcome Range * list string) :=
  map (λ selection,
         let selectedLineText := getSelectedLineText document selection in
         getTranslationPromise gti humanizeString camelcase getProxyConfig
           selectedLineText selectedLanguage selection)
      selections.

(** [Promise.all(...).then]: the callback gets the results once every
    promise has resolved, and is not called otherwise. *)
Fixpoint promise_all (promises : list (Outcome Range)) : option (list (Range * string)) :=
  match promises with
  | [] => Some []
  | Resolved selection translation :: rest =>
      cons (selection, translation) <$> promise_all rest
  | _ :: _ => None
  end.

(** The [builder.replace] calls of one edit. *)
Definition replacements (results : list (Range * string)) : list (Range * string) :=
  map (λ r, (r.1, decode r.2)) (filter (λ r, truthy r.2 = true) results).

(** [Languages.find(...)?.value ?? "en"]. *)
Definition locale (preferredLanguage : option string) : string :=
  match preferredLanguage with
  | Some n =>
      match find (λ element, String.eqb (Comment.name element) n) Languages with
      | Some l => Comment.value l
      | None => "en"
      end
  | None => "en"
  end.

(** What a run of a command leaves behind: the recently used list, the
    texts each promise sent to the translation package, and the edit
    applied to the editor, if one is. *)
Record CommandRun := mkRun {
  run_recentlyUsed : list string;
  run_sent : list (list string);
  run_edit : option (list (Range * string))
}.

Definition idle (recentlyUsed : list string) : CommandRun :=
  mkRun recentlyUsed [] None.

(** The command [extension.translateText]; [picked] is the answer of
    the quick pick. *)
Definition translateText (activeTextEditor : option TextEditor)
    (picked : option string) (recentlyUsed : list string) : CommandRun :=
  match activeTextEditor with
  | None => idle recentlyUsed
  | Some editor =>
      match picked with
      | None => idle recentlyUsed
      | Some selectedLanguage =>
          if truthy selectedLanguage then
            let _selectedLanguage :=
              find (λ r, String.eqb (Comment.name r) selectedLanguage) Languages in
            let recentlyUsed' :=
              match _selectedLanguage with
              | Some l => updateLanguageList (Comment.name l) recentlyUsed
              | None => recentlyUsed
              end in
            let translationsPromiseArray :=
              getTranslationsPromiseArray (selections editor) (document_getText editor)
                (match _selectedLanguage with
                 | Some l => Comment.value l
                 | None => "en"
                 end) in
            mkRun recentlyUsed' (map snd translationsPromiseArray)
              (replacements <$> promise_all (map fst translationsPromiseArray))
          else idle recentlyUsed
      end
  end.

End Commands.

(** The recently used list after a series of picks, oldest first; the
    list starts empty. *)
Definition recentlyUsedAfter (picks : list string) : list string :=
  foldl (λ recentlyUsed lang, updateLanguageList lang recentlyUsed) [] picks.

(** *** Which documents the hover server is started for *)

Record Grammar := mkGrammar { grammar_language : option string }.

Record Contributes := mkContributes {
  grammars : option (list Grammar);
  contributed_languages : option (list string)
}.

Record VsExtension := mkExtension {
  contributes : option Contributes;
  extensionPath : string
}.

Record GrammarExtension := mkGrammarExtension {
  ge_languages : list Comment.Language;
  ge_value : list Grammar;
  extensionLocation : string
}.

(** The variables the loop over [extensions.all] updates. *)
Record Collected := mkCollected {
  next_languageId : nat;
  grammarExtensions : list GrammarExtension;
  canLanguages : list (option string)
}.

Definition collect_step (Languages : list Comment.Language) (acc : Collected)
    (extension : VsExtension) : Collected :=
  match contributes extension with
  | Some c =>
      match grammars c with
      | Some gs =>
          {| next_languageId :=
               next_languageId acc + length (default [] (contributed_languages c));
             grammarExtensions :=
               grammarExtensions acc ++ [mkGrammarExtension Languages gs (extensionPath extension)];
             canLanguages := canLanguages acc ++ map grammar_language gs |}
      | None => acc
      end
  | None => acc
  end.

Definition collect (Languages : list Comment.Language) (extAll : list VsExtension)
  : Collected :=
  foldl (collect_step Languages) (mkCollected 2 [] []) extAll.

Definition BlackLanguage : list string := ["log"; "Log"].

(** [.filter((v) => v)] drops missing and empty languages. *)
Definition named (v : option string) : option string :=
  match v with
  | Some l => if truthy l then Some l else None
  | None => None
  end.

Definition documentSelector (Languages : list Comment.Language)
    (extAll : list VsExtension) : list string :=
  filter (λ v, v ∉ BlackLanguage) (omap named (canLanguages (collect Languages extAll))).

(** The grammars an extension contributes, if it contributes any. *)
Definition contributed_grammars (extension : VsExtension) : option (list Grammar) :=
  match contributes extension with
  | Some c => grammars c
  | None => None
  end.

End Extension.

(** ** Concrete collaborators used in the examples *)
Module Scenario.
Import Comment.

(** Modelled from the spec: the word splitter (splitting an
    identifier-style string into space-separated words); the package
    behind [humanizeString] is not part of the sources. *)
Fixpoint humanize_words (s : string) : string :=
  match s with
  | EmptyString => EmptyString
  | String ch rest =>
      String (if (Ascii.eqb ch "_" || Ascii.eqb ch "-")%char then " "%char else ch)
             (humanize_words rest)
  end.

Definition languages : list Language :=
  [mkLanguage "English" "en"; mkLanguage "French" "fr"].

(** A registry with grammars for two languages. *)
Definition createGrammar (lang : string) : option string :=
  if String.eqb lang "typescript" then Some "source.ts"
  else if String.eqb lang "objective-c" then Some "source.objc"
  else None.

(** A pipeline that finds an identifier-like comment on line 0 only. *)
Definition computeText (parse : @CommentParse string) (pos : Position)
  : option ICommentBlock :=
  if (line pos =? 0)%nat then
    Some (mkBlock true (mkRange (mkPosition 0 3) (mkPosition 0 12)) "do_it_now")
  else None.

Definition api (txt to : string) : option string := Some ("<" +:+ to +:+ "> " +:+ txt).

Definition noSelection (p : TextDocumentPositionParams) : option ICommentBlock := None.

Definition tsDoc : TextDocument := mkDoc "file:///a.ts" "typescript" 1 "// do_it_now".

Definition tsQuery : TextDocumentPositionParams :=
  mkParams "file:///a.ts" (mkPosition 0 5).

Definition txtDoc : TextDocument := mkDoc "file:///a.txt" "plaintext" 1 "hello world".

Definition txtQuery : TextDocumentPositionParams :=
  mkParams "file:///a.txt" (mkPosition 0 2).

(** An editor showing [txtDoc] with its first five characters selected. *)
Definition txtEditor : Extension.TextEditor :=
  Extension.mkEditor "file:///a.txt" (λ _, "hello")
    [mkRange (mkPosition 0 0) (mkPosition 0 5)].

(** An editor showing [tsDoc] with five characters of the comment
    selected. *)
Definition tsEditor : Extension.TextEditor :=
  Extension.mkEditor "file:///a.ts" (λ _, "do_it")
    [mkRange (mkPosition 0 3) (mkPosition 0 8)].

(** Two documents whose language id and uri join to the same key. *)
Definition objcDoc : TextDocument := mkDoc "file:///a.m" "objective-c" 1 "// note".

Definition otherDoc : TextDocument := mkDoc "c-file:///a.m" "objective" 1 "// note".

Definition objcQuery : TextDocumentPositionParams :=
  mkParams "file:///a.m" (mkPosition 0 5).

Definition otherQuery : TextDocumentPositionParams :=
  mkParams "c-file:///a.m" (mkPosition 0 5).

Definition initial : @Comment string := constructor "en" ∅.

Definition query (registry : string → option string)
    (p : TextDocumentPositionParams) (c : @Comment string) :=
  getComment registry computeText humanize_words api noSelection p c.


Definition apiAnswering (txt to : string) : Rejections.Answer (option string) :=
  Rejections.Answered (api txt to).


(** The states the examples go through. *)
Definition tsOpened : @Comment string := Lifecycle.opened tsDoc initial.

Definition tsCached : @Comment string := after (query createGrammar tsQuery tsOpened).

Definition tsReconfigured : @Comment string :=
  setSetting languages (mkNewSetting true (Some "French")) tsCached.

Definition txtOpened : @Comment string := Lifecycle.opened txtDoc initial.

Definition bothOpened : @Comment string :=
  Lifecycle.opened otherDoc (Lifecycle.opened objcDoc initial).

Definition objcCached : @Comment string :=
  after (query createGrammar objcQuery bothOpened).

(** A query on [tsDoc] is suspended while its grammar loads; the
    document is closed, and in the second run opened again with another
    text, before the query resumes. *)
Definition tsClosed : @Comment string := Lifecycle.closed tsDoc tsOpened.

Definition resumedAfterClose : @Comment string :=
  Lifecycle.resumed createGrammar tsDoc tsClosed.

Definition tsRewritten : TextDocument :=
  mkDoc "file:///a.ts" "typescript" 1 "// something_else".

Definition tsReopened : @Comment string := Lifecycle.opened tsRewritten tsClosed.

Definition resumedAfterReopen : @Comment string :=
  Lifecycle.resumed createGrammar tsDoc tsReopened.

Definition echo (txt : string) (o : Extension.TranslateOptions) : Extension.Reply :=
  Extension.Fulfilled (Some (Extension.mkRes txt)).

Definition noProxy : Extension.ProxyConfig :=
  Extension.mkProxyConfig None None None None.

(** A translation package that answers, one that is unreachable, and
    one that repeats [do_it_now] and is unreachable afterwards. *)
Definition shout (txt : string) (o : Extension.TranslateOptions) : Extension.Reply :=
  Extension.Fulfilled (Some (Extension.mkRes (txt +:+ "!"))).

Definition offline (txt : string) (o : Extension.TranslateOptions) : Extension.Reply :=
  Extension.Failed "offline".

Definition echoThenOffline (txt : string) (o : Extension.TranslateOptions)
  : Extension.Reply :=
  if String.eqb txt "do_it_now" then Extension.Fulfilled (Some (Extension.mkRes txt))
  else Extension.Failed "offline".

Definition proxied : Extension.ProxyConfig :=
  Extension.mkProxyConfig (Some "proxy.local") (Some "8080") (Some "me") (Some "secret").

(** An editor with a bare cursor and a selection of five characters. *)
Definition twoSelections : Extension.TextEditor :=
  Extension.mkEditor "file:///a.ts" (λ _, "hello")
    [mkRange (mkPosition 0 4) (mkPosition 0 4);
     mkRange (mkPosition 0 3) (mkPosition 0 8)].

(** A translation service that answers without data. *)
Definition noData (txt to : string) : option string := None.

Definition installed : list Extension.VsExtension :=
  [Extension.mkExtension
     (Some (Extension.mkContributes
              (Some [Extension.mkGrammar (Some "typescript"); Extension.mkGrammar None])
              (Some ["typescript"]))) "/ext/ts";
   Extension.mkExtension
     (Some (Extension.mkContributes (Some [Extension.mkGrammar (Some "log")]) None))
     "/ext/log";
   Extension.mkExtension None "/ext/theme"].

End Scenario.

(** * Properties of the editor side *)

Section ExtensionFacts.
Import Extension.

Lemma truthy_spec s : truthy s = true ↔ s ≠ "".
Proof.
  unfold truthy. destruct (String.eqb_spec s ""); simpl; split; congruence.
Qed.

Lemma others_absent lang l : lang ∉ l → others lang l = l.
Proof.
  unfold others. induction l as [|x l IH]; intros Hnot; [done|].
  apply not_elem_of_cons in Hnot as [Hx Hl].
  rewrite filter_cons_True by (simpl; congruence). by rewrite IH.
Qed.

Lemma spliced_others lang l : NoDup l → spliced lang l = others lang l.
Proof.
  unfold spliced, others. induction l as [|x l IH]; intros Hnd; [done|].
  apply NoDup_cons in Hnd as [Hx Hl]. simpl.
  destruct (String.eqb_spec x lang) as [->|Hne].
  - simpl. rewrite filter_cons_False by (simpl; intros H; by apply H).
    symmetry. by apply others_absent.
  - rewrite filter_cons_True by (simpl; done). specialize (IH Hl).
    destruct (findIndex _ l); simpl in *; by f_equal.
Qed.

Lemma others_lacks lang l : lang ∉ others lang l.
Proof. unfold others. rewrite list_elem_of_filter. intros [Hne _]. by apply Hne. Qed.

Lemma others_no_match lang l : filter (λ r, r = lang) (others lang l) = [].
Proof.
  unfold others. induction l as [|x l IH]; [done|].
  destruct (decide (x = lang)) as [->|Hne].
  - rewrite filter_cons_False; [done|]. simpl. intros Hne. by apply Hne.
  - rewrite filter_cons_True by (simpl; done).
    rewrite filter_cons_False by (simpl; done). done.
Qed.

(** C9. After [updateLanguageList lang] the list has [lang] at index 0;
    and when the list had no duplicates before, it has none afterwards:
    it is [lang] followed by the other elements in their former order. *)
Theorem updateLanguageList_front_unique (lang : string) (recentlyUsed : list string) :
  updateLanguageList lang recentlyUsed !! 0 = Some lang
  ∧ (NoDup recentlyUsed →
       NoDup (updateLanguageList lang recentlyUsed)
       ∧ updateLanguageList lang recentlyUsed = lang :: others lang recentlyUsed
       ∧ length (filter (λ r, r = lang) (updateLanguageList lang recentlyUsed)) = 1).
Proof.
  split; [done|]. intros Hnd.
  assert (Heq : updateLanguageList lang recentlyUsed = lang :: others lang recentlyUsed).
  { unfold updateLanguageList. fold (spliced lang recentlyUsed).
    by rewrite spliced_others. }
  rewrite Heq. split; [|split; [done|]].
  - apply NoDup_cons. split; [apply others_lacks|].
    unfold others. by apply NoDup_filter.
  - rewrite filter_cons_True by (simpl; done).
    by rewrite others_no_match.
Qed.
(** C10, as stated, fails on the empty text: the response equals the
    input, yet no second translation is issued. *)
Lemma getTranslationPromise_empty_text_single_call :
  translate Scenario.echo "" (translationConfiguration Scenario.noProxy "fr")
    = Fulfilled (Some (mkRes ""))
  ∧ getTranslationPromise Scenario.echo Scenario.humanize_words id Scenario.noProxy
      "" "fr" tt = (Rejected issue, [""]).
Proof. split; reflexivity. Qed.

Section TranslationFacts.

Context {Selection : Type}.
Variable gti : string → TranslateOptions → Reply.
Variable humanizeString : string → string.
Variable camelcase : string → string.
Variable getProxyConfig : ProxyConfig.

(** C10 (amended). When the first response's text equals the input:
    for the empty text the promise rejects after that single call; for
    a non-empty text a second translation of the humanized input is
    issued, and a second response with non-empty text resolves the
    promise with [camelcase] of the first response's text, whatever the
    second text is.  A rejection implies that a response's text is
    empty. *)
Theorem getTranslationPromise_same_text (selectedText selectedLanguage : string)
    (selection : Selection) (translateRes : TranslatorRes) :
  let configuration := translationConfiguration getProxyConfig selectedLanguage in
  let run := getTranslationPromise gti humanizeString camelcase getProxyConfig
               selectedText selectedLanguage selection in
  let second := translate gti (humanizeString selectedText) configuration in
  translate gti selectedText configuration = Fulfilled (Some translateRes) →
  res_text translateRes = selectedText →
  (selectedText = "" → run = (Rejected issue, [selectedText]))
  ∧ (selectedText ≠ "" →
       run.2 = [selectedText; humanizeString selectedText]
       ∧ ∀ translatorRes, second = Fulfilled (Some translatorRes) →
           res_text translatorRes ≠ "" →
           run.1 = Resolved selection (camelcase (res_text translateRes))
             ∧ camelcase (res_text translateRes) = camelcase selectedText)
  ∧ (∀ message, run.1 = Rejected message →
       res_text translateRes = ""
       ∨ ∃ translatorRes, second = Fulfilled (Some translatorRes)
                          ∧ res_text translatorRes = "").
Proof.
  intros configuration run second Hfirst Hsame.
  subst run second. unfold getTranslationPromise.
  fold configuration. rewrite Hfirst, Hsame. rewrite String.eqb_refl.
  destruct (truthy selectedText) eqn:Htext.
  - apply truthy_spec in Htext. split; [done|]. split.
    + intros _. split; [done|]. intros r2 Hsecond Hr2.
      rewrite Hsecond. simpl.
      apply truthy_spec in Hr2. by rewrite Hr2.
    + intros message. simpl.
      destruct (translate gti (humanizeString selectedText) configuration)
        as [[r2|]|] eqn:Hsecond; try done.
      destruct (truthy (res_text r2)) eqn:Hr2; simpl; [done|].
      intros _. right. exists r2. split; [done|].
      destruct (String.eqb_spec (res_text r2) ""); [done|].
      unfold truthy in Hr2. destruct (String.eqb_spec (res_text r2) ""); done.
  - assert (selectedText = "") as ->.
    { unfold truthy in Htext. by destruct (String.eqb_spec selectedText ""). }
    split; [done|]. split; [done|]. intros message _. by left.
Qed.

End TranslationFacts.

(** At a concrete input: the text [do_it_now] comes back unchanged, a
    second call translates the split words, and the promise resolves
    with the first text. *)
Lemma getTranslationPromise_same_text_witness :
  getTranslationPromise Scenario.echo Scenario.humanize_words id Scenario.noProxy
    "do_it_now" "fr" tt
  = (Resolved tt "do_it_now", ["do_it_now"; "do it now"]).
Proof.
  pose proof (getTranslationPromise_same_text Scenario.echo Scenario.humanize_words
                id Scenario.noProxy "do_it_now" "fr" tt (mkRes "do_it_now")
                eq_refl eq_refl) as (_ & Hcalls & _).
  destruct (Hcalls ltac:(discriminate)) as [Htrace Hresolved].
  destruct (Hresolved (mkRes "do it now") eq_refl ltac:(discriminate)) as [Hout _].
  apply injective_projections; [exact Hout | exact Htrace].
Defined.

End ExtensionFacts.

(** * Properties of the [Comment] class *)

Section CommentFacts.
Import Comment Lifecycle.

Ltac run_handler :=
  cbv [getComment block_at hover_of _getCommentParse
       _getSelectionContainPosition translate
       mbind mret M_bind M_ret this emit update result after trace fst snd app];
  simpl.

Section Handlers.

Context {IGrammar : Type}.
Variable createGrammar : string → option IGrammar.
Variable computeText : @CommentParse IGrammar → Position → option ICommentBlock.
Variable humanizeString : string → string.
Variable api : string → string → option string.
Variable languages : list Language.
Variable host : TextDocumentPositionParams → option ICommentBlock.

Lemma result_tuple {A} (a : A) (c : @Comment IGrammar) (t : list Event) :
  result (a, c, t) = a.
Proof. reflexivity. Qed.

Lemma after_tuple {A} (a : A) (c : @Comment IGrammar) (t : list Event) :
  after (a, c, t) = c.
Proof. reflexivity. Qed.

Lemma trace_tuple {A} (a : A) (c : @Comment IGrammar) (t : list Event) :
  trace (a, c, t) = t.
Proof. reflexivity. Qed.

Lemma getCommentParse_cached d (c : @Comment IGrammar) p :
  _commentParseCache c !! key d = Some p →
  _getCommentParse createGrammar d c = (Some p, c, []).
Proof. intros H. run_handler. by rewrite H. Qed.

Lemma getCommentParse_no_grammar d (c : @Comment IGrammar) :
  _commentParseCache c !! key d = None →
  createGrammar (languageId d) = None →
  _getCommentParse createGrammar d c = (None, c, [CreateGrammar (languageId d)]).
Proof. intros H1 H2. run_handler. by rewrite H1, H2. Qed.

Lemma getCommentParse_created d (c : @Comment IGrammar) grammar :
  _commentParseCache c !! key d = None →
  createGrammar (languageId d) = Some grammar →
  let parse := mkParse d grammar (multiLineMerge (_setting c)) in
  _getCommentParse createGrammar d c
  = (Some parse,
     {| _setting := _setting c;
        _commentParseCache := <[key d := parse]> (_commentParseCache c);
        _documents := _documents c |},
     [CreateGrammar (languageId d)]).
Proof. intros H1 H2. run_handler. by rewrite H1, H2. Qed.

Lemma getCommentParse_keeps d (c : @Comment IGrammar) :
  _setting (after (_getCommentParse createGrammar d c)) = _setting c
  ∧ _documents (after (_getCommentParse createGrammar d c)) = _documents c.
Proof.
  run_handler. destruct (_commentParseCache c !! key d); [done|].
  by destruct (createGrammar (languageId d)).
Qed.

Lemma hover_of_run b (c : @Comment IGrammar) :
  hover_of humanizeString api b c
  = (hover_for humanizeString api (preferredLanguage (_setting c)) b, c,
     [Translate (sent_text humanizeString b) (preferredLanguage (_setting c))]).
Proof. unfold hover_for, sent_text, translated. run_handler. by destruct (humanize b). Qed.

Lemma block_at_run parse p (c : @Comment IGrammar) :
  block_at computeText host parse p c
  = (chosen_block computeText host parse p, c, block_events host parse p).
Proof. unfold chosen_block, block_events. run_handler. by destruct (host p). Qed.

(** The three ways a query can go. *)
Lemma getComment_not_open p (c : @Comment IGrammar) :
  _documents c !! textDocument_uri p = None →
  getComment createGrammar computeText humanizeString api host p c = (None, c, []).
Proof. intros H. unfold getComment. run_handler. by rewrite H. Qed.

Lemma getComment_no_parse p d (c : @Comment IGrammar) :
  _documents c !! textDocument_uri p = Some d →
  result (_getCommentParse createGrammar d c) = None →
  getComment createGrammar computeText humanizeString api host p c
  = (None, after (_getCommentParse createGrammar d c),
     trace (_getCommentParse createGrammar d c)).
Proof.
  intros Hd. run_handler. rewrite Hd.
  destruct (_commentParseCache c !! key d); [done|]. simpl.
  by destruct (createGrammar (languageId d)).
Qed.

Lemma getComment_parsed p d parse (c : @Comment IGrammar) :
  _documents c !! textDocument_uri p = Some d →
  result (_getCommentParse createGrammar d c) = Some parse →
  getComment createGrammar computeText humanizeString api host p c
  = (hover_for humanizeString api (preferredLanguage (_setting c))
       <$> chosen_block computeText host parse p,
     after (_getCommentParse createGrammar d c),
     trace (_getCommentParse createGrammar d c)
     ++ block_events host parse p
     ++ match chosen_block computeText host parse p with
        | Some b => [Translate (sent_text humanizeString b)
                       (preferredLanguage (_setting c))]
        | None => []
        end).
Proof.
  intros Hd. unfold chosen_block, block_events, hover_for, sent_text, translated.
  run_handler. rewrite Hd.
  destruct (_commentParseCache c !! key d) as [cached|]; simpl.
  - intros [= ->]. destruct (host p) as [b|]; simpl;
      [|destruct (computeText parse (position p)) as [b|]; simpl];
      try destruct (humanize b); done.
  - destruct (createGrammar (languageId d)) as [grammar|]; simpl; [|done].
    intros [= <-]. destruct (host p) as [b|]; simpl;
      [|destruct (computeText _ (position p)) as [b|]; simpl];
      try destruct (humanize b); done.
Qed.

Lemma getCommentParse_trace d (c : @Comment IGrammar) e :
  e ∈ trace (_getCommentParse createGrammar d c) → e = CreateGrammar (languageId d).
Proof.
  run_handler. destruct (_commentParseCache c !! key d); simpl.
  - by intros ?%elem_of_nil.
  - destruct (createGrammar (languageId d)); simpl;
      rewrite list_elem_of_singleton; done.
Qed.

Lemma getCommentParse_caches d parse (c : @Comment IGrammar) :
  result (_getCommentParse createGrammar d c) = Some parse →
  _commentParseCache (after (_getCommentParse createGrammar d c)) !! key d = Some parse.
Proof.
  run_handler. destruct (_commentParseCache c !! key d) eqn:Hc; simpl.
  - by intros [= ->].
  - destruct (createGrammar (languageId d)); simpl; [|done].
    intros [= <-]. apply lookup_insert_eq.
Qed.

Lemma getCommentParse_none d (c : @Comment IGrammar) :
  result (_getCommentParse createGrammar d c) = None →
  after (_getCommentParse createGrammar d c) = c.
Proof.
  run_handler. destruct (_commentParseCache c !! key d); simpl; [done|].
  by destruct (createGrammar (languageId d)).
Qed.

Lemma filter_parse_trace (P : Event → Prop) `{!∀ e, Decision (P e)} d
    (c : @Comment IGrammar) :
  ¬ P (CreateGrammar (languageId d)) →
  filter P (trace (_getCommentParse createGrammar d c)) = [].
Proof.
  intros HP. run_handler. destruct (_commentParseCache c !! key d); simpl; [done|].
  destruct (createGrammar (languageId d)); simpl; by rewrite filter_cons_False.
Qed.

(** C6. For a block with [humanize] set the translator receives the
    word-split form of the comment, and the hover shows that form
    followed by its translation; for any other block the translator
    receives the comment text itself. *)
Theorem getComment_translates_humanized (p : TextDocumentPositionParams)
    (d : TextDocument) (parse : CommentParse) (b : ICommentBlock)
    (c : @Comment IGrammar) :
  let run := getComment createGrammar computeText humanizeString api host p c in
  let to := preferredLanguage (_setting c) in
  _documents c !! textDocument_uri p = Some d →
  result (_getCommentParse createGrammar d c) = Some parse →
  chosen_block computeText host parse p = Some b →
  filter (λ e, is_Translate e = true) (trace run)
    = [Translate (if humanize b then humanizeString (comment b) else comment b) to]
  ∧ result run
    = Some (if humanize b
            then mkHover [humanizeString (comment b) +:+ " => "
                          +:+ translated api (humanizeString (comment b)) to] (range b)
            else mkHover [translated api (comment b) to] (range b)).
Proof.
  intros run to Hd Hp Hb. subst run to.
  rewrite (getComment_parsed p d parse c Hd Hp), Hb.
  unfold trace at 1. unfold result at 1. cbn [fst snd].
  split; [|unfold hover_for; simpl; by destruct (humanize b)].
  unfold sent_text.
  rewrite !filter_app, filter_parse_trace by done.
  unfold block_events. simpl.
  rewrite filter_cons_False by done.
  assert (Hpipe : filter (λ e : @Event IGrammar, is_Translate e = true)
            match host p with
            | Some _ => []
            | None => [ComputeText parse (position p)]
            end = []).
  { destruct (host p); [done|]. by rewrite filter_cons_False. }
  rewrite Hpipe. simpl. by rewrite filter_cons_True.
Qed.

(** C7. A second query on the unchanged class returns what the first
    returned and leaves the class as the first left it; when the first
    query had a parse, the second finds it in the cache without asking
    for a grammar and makes the same calls otherwise. *)
Theorem getComment_twice (p : TextDocumentPositionParams) (c : @Comment IGrammar) :
  let first := getComment createGrammar computeText humanizeString api host p c in
  let second := getComment createGrammar computeText humanizeString api host p
                  (after first) in
  result second = result first
  ∧ after second = after first
  ∧ _setting (after first) = _setting c
  ∧ _documents (after first) = _documents c
  ∧ ∀ d parse, _documents c !! textDocument_uri p = Some d →
      result (_getCommentParse createGrammar d c) = Some parse →
      _getCommentParse createGrammar d (after first) = (Some parse, after first, [])
      ∧ trace first = trace (_getCommentParse createGrammar d c) ++ trace second.
Proof.
  intros first second. subst first second.
  destruct (_documents c !! textDocument_uri p) as [d|] eqn:Hd.
  2:{ rewrite !(getComment_not_open p c Hd), after_tuple.
      rewrite !(getComment_not_open p c Hd). by repeat split. }
  destruct (getCommentParse_keeps d c) as [Hset Hdocs].
  destruct (result (_getCommentParse createGrammar d c)) as [parse|] eqn:Hp.
  - rewrite (getComment_parsed p d parse c Hd Hp), after_tuple.
    set (c' := after (_getCommentParse createGrammar d c)) in *.
    pose proof (getCommentParse_caches d parse c Hp) as Hhit. fold c' in Hhit.
    pose proof (getCommentParse_cached d c' parse Hhit) as Hagain.
    assert (Hd' : _documents c' !! textDocument_uri p = Some d) by by rewrite Hdocs.
    rewrite (getComment_parsed p d parse c' Hd') by by rewrite Hagain.
    rewrite Hagain, !result_tuple, !after_tuple, !trace_tuple, Hset.
    repeat split; try done.
    + match goal with H : Some d = Some _ |- _ => injection H as <- end.
      match goal with H : result _ = Some _ |- _ => rewrite Hp in H; by injection H as <- end.
    + match goal with H : Some d = Some _ |- _ => by injection H as <- end.
  - rewrite (getComment_no_parse p d c Hd Hp), after_tuple.
    rewrite (getCommentParse_none d c Hp).
    rewrite (getComment_no_parse p d c Hd Hp).
    rewrite (getCommentParse_none d c Hp), !result_tuple, !after_tuple.
    repeat split; try done;
      match goal with H : Some d = Some _ |- _ => injection H as <- end; congruence.
Qed.

End Handlers.

Section Selection.

Context {IGrammar : Type}.
Variable createGrammar : string → option IGrammar.
Variable computeText : @CommentParse IGrammar → Position → option ICommentBlock.
Variable humanizeString : string → string.
Variable api : string → string → option string.

(** What the editor answers: a block exactly when the active editor
    shows the queried document and one of its non-empty selections
    contains the position. *)
Lemma selectionContains_some activeTextEditor p :
  is_Some (Extension.selectionContains activeTextEditor p) ↔
  ∃ editor selection,
    activeTextEditor = Some editor
    ∧ Extension.document_uri editor = textDocument_uri p
    ∧ selection ∈ Extension.selections editor
    ∧ Extension.isEmpty selection = false
    ∧ Extension.contains selection (position p) = true.
Proof.
  unfold Extension.selectionContains. destruct p as [u [l ch]]. simpl. split.
  - destruct activeTextEditor as [editor|]; [|by intros [? ?]].
    destruct (String.eqb_spec (Extension.document_uri editor) u) as [Hu|];
      [|by intros [? ?]].
    destruct (find _ (Extension.selections editor)) as [selection|] eqn:Hfind;
      [|by intros [? ?]].
    intros _. apply find_some in Hfind as [Hin Hsel].
    apply andb_true_iff in Hsel as [Hne Hcontains].
    exists editor, selection. rewrite <- list_elem_of_In in Hin.
    by apply negb_true_iff in Hne.
  - intros (editor & selection & -> & Hu & Hin & Hne & Hcontains).
    simpl in Hu. rewrite Hu, String.eqb_refl.
    destruct (find _ (Extension.selections editor)) as [found|] eqn:Hfind;
      [by eexists|].
    apply list_elem_of_In in Hin.
    pose proof (find_none _ _ Hfind _ Hin) as Hnone. simpl in Hnone.
    by rewrite Hne, Hcontains in Hnone.
Qed.

Lemma selectionContains_verbatim activeTextEditor p b :
  Extension.selectionContains activeTextEditor p = Some b → humanize b = false.
Proof.
  unfold Extension.selectionContains. destruct activeTextEditor as [editor|]; [|done].
  destruct (String.eqb _ _); [|done].
  destruct (find _ _); [|done]. by intros [= <-].
Qed.

(** C1 (amended). A query for a document that is not open, or for
    which no parse is obtained (no entry and no grammar), ends without
    a request to the editor and returns nothing.  For a query on an
    open document for which a parse is available, the request to the
    editor is the first call after the parse was obtained; the pipeline
    runs exactly when the editor has no block; a block of the editor
    decides the hover.  The editor has a block exactly when it shows
    the queried document and a non-empty selection contains the
    position. *)
Theorem getComment_selection_first (activeTextEditor : option Extension.TextEditor)
    (p : TextDocumentPositionParams) (c : @Comment IGrammar) :
  let editor_answer := Extension.selectionContains activeTextEditor in
  let run := getComment createGrammar computeText humanizeString api editor_answer p c in
  (_documents c !! textDocument_uri p = None → run = (None, c, []))
  ∧ (∀ d, _documents c !! textDocument_uri p = Some d →
       result (_getCommentParse createGrammar d c) = None →
       result run = None
       ∧ ∀ e, e ∈ trace run → e = CreateGrammar (languageId d))
  ∧ (∀ d parse, _documents c !! textDocument_uri p = Some d →
       result (_getCommentParse createGrammar d c) = Some parse →
       (∃ before rest, trace run = before ++ SelectionContains p :: rest
           ∧ Forall (λ e, is_CreateGrammar e = true) before)
       ∧ ((∃ e, e ∈ trace run ∧ is_ComputeText e = true) ↔ editor_answer p = None)
       ∧ (∀ b, editor_answer p = Some b →
            result run
            = Some (mkHover
                      [translated api (comment b) (preferredLanguage (_setting c))]
                      (range b))))
  ∧ (is_Some (editor_answer p) ↔
       ∃ editor selection,
         activeTextEditor = Some editor
         ∧ Extension.document_uri editor = textDocument_uri p
         ∧ selection ∈ Extension.selections editor
         ∧ Extension.isEmpty selection = false
         ∧ Extension.contains selection (position p) = true).
Proof.
  intros editor_answer run. subst run.
  split; [|split; [|split]].
  - intros Hd. by apply getComment_not_open.
  - intros d Hd Hp.
    rewrite (getComment_no_parse createGrammar computeText humanizeString api
               editor_answer p d c Hd Hp), trace_tuple, result_tuple.
    split; [done|]. intros e He. by apply getCommentParse_trace in He.
  - intros d parse Hd Hp.
    rewrite (getComment_parsed createGrammar computeText humanizeString api
               editor_answer p d parse c Hd Hp), trace_tuple, result_tuple.
    split; [|split].
    + eexists _, _. split; [reflexivity|].
      apply Forall_forall. intros e He%getCommentParse_trace. by subst.
    + unfold block_events, chosen_block. split.
      * intros (e & He & Hcompute).
        apply elem_of_app in He as [He%getCommentParse_trace|He]; [by subst|].
        destruct (editor_answer p) as [b|]; [|done].
        apply elem_of_cons in He as [->|He]; [done|]. simpl in He.
        apply elem_of_cons in He as [->|He]; [done|]. by apply elem_of_nil in He.
      * intros ->. exists (ComputeText parse (position p)). split; [|done].
        apply elem_of_app. right. apply elem_of_cons. right.
        apply elem_of_cons. by left.
    + intros b Hb. unfold chosen_block. rewrite Hb. simpl. unfold hover_for.
      by rewrite (selectionContains_verbatim _ _ _ Hb).
  - apply selectionContains_some.
Qed.

End Selection.

Section CacheLifecycle.

Context {IGrammar : Type}.
Variable createGrammar : string → option IGrammar.

(** The only effect of a query on the class is that of
    [_getCommentParse] on the queried document. *)
Lemma getComment_after computeText humanizeString api host p (c : @Comment IGrammar) :
  after (getComment createGrammar computeText humanizeString api host p c)
  = match _documents c !! textDocument_uri p with
    | Some d => after (_getCommentParse createGrammar d c)
    | None => c
    end.
Proof.
  destruct (_documents c !! textDocument_uri p) as [d|] eqn:Hd.
  - destruct (result (_getCommentParse createGrammar d c)) as [parse|] eqn:Hp.
    + by rewrite (getComment_parsed _ _ _ _ _ p d parse c Hd Hp).
    + by rewrite (getComment_no_parse _ _ _ _ _ p d c Hd Hp).
  - by rewrite getComment_not_open.
Qed.

Lemma getCommentParse_cache d (c : @Comment IGrammar) :
  _commentParseCache (after (_getCommentParse createGrammar d c))
  = match _commentParseCache c !! key d, createGrammar (languageId d) with
    | None, Some grammar =>
        <[key d := mkParse d grammar (multiLineMerge (_setting c))]>
          (_commentParseCache c)
    | _, _ => _commentParseCache c
    end.
Proof.
  run_handler. destruct (_commentParseCache c !! key d); [done|].
  by destruct (createGrammar (languageId d)).
Qed.

Lemma key_changed d v t : key (mkDoc (uri d) (languageId d) v t) = key d.
Proof. reflexivity. Qed.








(** What each operation does to the cache, whatever the state: a query
    adds at most the entry of the queried document, a change and a
    close delete the entry under the document's key, and [setSetting],
    [translate] and the request to the editor leave the cache alone. *)
Lemma parse_cache_operations (c : @Comment IGrammar) :
  (∀ computeText humanizeString api host p,
     _commentParseCache
       (after (getComment createGrammar computeText humanizeString api host p c))
     = match _documents c !! textDocument_uri p with
       | Some d =>
           match _commentParseCache c !! key d, createGrammar (languageId d) with
           | None, Some grammar =>
               <[key d := mkParse d grammar (multiLineMerge (_setting c))]>
                 (_commentParseCache c)
           | _, _ => _commentParseCache c
           end
       | None => _commentParseCache c
       end)
  ∧ (∀ d v t,
       _commentParseCache (changed d v t c) = delete (key d) (_commentParseCache c))
  ∧ (∀ d, _commentParseCache (closed d c) = delete (key d) (_commentParseCache c))
  ∧ (∀ languages newSetting,
       _commentParseCache (setSetting languages newSetting c) = _commentParseCache c)
  ∧ (∀ api txt, _commentParseCache (after (translate api txt c)) = _commentParseCache c)
  ∧ (∀ host p,
       _commentParseCache (after (_getSelectionContainPosition host p c))
       = _commentParseCache c).
Proof.
  split; [|done].
  intros computeText humanizeString api host p. rewrite getComment_after.
  destruct (_documents c !! textDocument_uri p) as [d|]; [|done].
  apply getCommentParse_cache.
Qed.

(** A query that is suspended and resumed at once does what the
    uninterrupted query does. *)
Lemma resumed_at_once computeText humanizeString api host p d (c : @Comment IGrammar) :
  _documents c !! textDocument_uri p = Some d →
  _commentParseCache c !! key d = None →
  resumed createGrammar d c
  = after (getComment createGrammar computeText humanizeString api host p c).
Proof.
  intros Hd Hmiss. rewrite getComment_after, Hd. unfold resumed.
  destruct (createGrammar (languageId d)) as [grammar|] eqn:Hgrammar.
  - by rewrite (getCommentParse_created createGrammar d c grammar Hmiss Hgrammar).
  - by rewrite (getCommentParse_no_grammar createGrammar d c Hmiss Hgrammar).
Qed.

End CacheLifecycle.
End CommentFacts.

(** * Queries whose collaborators may reject *)

Section RejectionFacts.
Import Comment.

Ltac run_rejecting :=
  cbv [Rejections.getComment Rejections.block_at Rejections.hover_of
       Rejections._getCommentParse Rejections._getSelectionContainPosition
       Rejections.translate Rejections.await Rejections.block_from
       mbind mret Rejections.P_bind Rejections.P_ret
       Rejections.this Rejections.emit Rejections.update Rejections.outcome
       after trace fst snd app].

Context {IGrammar : Type}.
Variable computeText : @CommentParse IGrammar → Position → option ICommentBlock.
Variable humanizeString : string → string.

(** With collaborators that answer, the query is the one of
    [Comment]. *)
Lemma getComment_answered (createGrammar : string → option IGrammar)
    (api : string → string → option string)
    (host : TextDocumentPositionParams → option ICommentBlock)
    (p : TextDocumentPositionParams) (c : @Comment IGrammar) :
  Rejections.getComment (λ l, Rejections.Answered (createGrammar l)) computeText
    humanizeString (λ txt to, Rejections.Answered (api txt to))
    (λ q, Rejections.Answered (host q)) p c
  = (Rejections.Returned
       (result (getComment createGrammar computeText humanizeString api host p c)),
     after (getComment createGrammar computeText humanizeString api host p c),
     trace (getComment createGrammar computeText humanizeString api host p c)).
Proof.
  run_rejecting.
  cbv [getComment block_at hover_of _getCommentParse
       _getSelectionContainPosition translate
       mbind mret M_bind M_ret this emit update result after trace fst snd app].
  destruct (_documents c !! textDocument_uri p) as [d|]; simpl; [|done].
  destruct (_commentParseCache c !! key d) as [cached|]; simpl.
  - destruct (host p) as [b|]; simpl;
      [|destruct (computeText cached (position p)) as [b|]; simpl];
      try destruct (humanize b); done.
  - destruct (createGrammar (languageId d)) as [grammar|]; simpl; [|done].
    destruct (host p) as [b|]; simpl;
      [|destruct (computeText _ (position p)) as [b|]; simpl];
      try destruct (humanize b); done.
Qed.

Variable createGrammar : string → Rejections.Answer (option IGrammar).
Variable api : string → string → Rejections.Answer (option string).
Variable host : TextDocumentPositionParams → Rejections.Answer (option ICommentBlock).





End RejectionFacts.

(** * The statements at concrete inputs *)

Section Examples.
Import Comment Lifecycle Scenario.

Lemma tsOpened_running : running createGrammar (tsOpened, []).
Proof.
  eapply running_step; [apply (running_init _ "en")|].
  by apply (didOpen createGrammar initial [] tsDoc).
Qed.

Lemma tsCached_running : running createGrammar (tsCached, []).
Proof.
  eapply running_step; [apply tsOpened_running|].
  apply (hover createGrammar tsOpened [] computeText humanize_words api noSelection
           tsQuery).
Qed.

Lemma tsOpened_reachable : reachable createGrammar tsOpened.
Proof. exists []. apply tsOpened_running. Qed.

Lemma tsCached_reachable : reachable createGrammar tsCached.
Proof. exists []. apply tsCached_running. Qed.

Lemma tsReconfigured_reachable : reachable createGrammar tsReconfigured.
Proof.
  exists []. eapply running_step; [apply tsCached_running|].
  apply (configure createGrammar tsCached []).
Qed.

Lemma objcCached_reachable : reachable createGrammar objcCached.
Proof.
  exists []. eapply running_step; [eapply running_step; [eapply running_step|]|].
  - apply (running_init _ "en").
  - by apply (didOpen createGrammar initial [] objcDoc).
  - by apply (didOpen createGrammar (opened objcDoc initial) [] otherDoc).
  - apply (hover createGrammar bothOpened [] computeText humanize_words api noSelection
             objcQuery).
Qed.

(** The query on [tsDoc] is suspended, the document is closed, the
    query resumes. *)
Lemma resumedAfterClose_running : running createGrammar (resumedAfterClose, []).
Proof.
  assert (Hsuspended : running createGrammar (tsOpened, [Attached "file:///a.ts"])).
  { eapply running_step; [apply tsOpened_running|].
    by apply (hover_suspend createGrammar tsOpened [] tsQuery tsDoc). }
  assert (Hclosed : running createGrammar (tsClosed, [Detached tsDoc])).
  { eapply running_step; [apply Hsuspended|].
    by apply (didClose createGrammar tsOpened [Attached "file:///a.ts"] tsDoc). }
  eapply running_step; [apply Hclosed|].
  by apply (hover_resume createGrammar tsClosed [] (Detached tsDoc) [] tsDoc).
Qed.

(** The same with the document opened again, with another text, before
    the query resumes. *)
Lemma resumedAfterReopen_running : running createGrammar (resumedAfterReopen, []).
Proof.
  assert (Hsuspended : running createGrammar (tsOpened, [Attached "file:///a.ts"])).
  { eapply running_step; [apply tsOpened_running|].
    by apply (hover_suspend createGrammar tsOpened [] tsQuery tsDoc). }
  assert (Hclosed : running createGrammar (tsClosed, [Detached tsDoc])).
  { eapply running_step; [apply Hsuspended|].
    by apply (didClose createGrammar tsOpened [Attached "file:///a.ts"] tsDoc). }
  assert (Hreopened : running createGrammar (tsReopened, [Detached tsDoc])).
  { eapply running_step; [apply Hclosed|].
    by apply (didOpen createGrammar tsClosed [Detached tsDoc] tsRewritten). }
  eapply running_step; [apply Hreopened|].
  by apply (hover_resume createGrammar tsReopened [] (Detached tsDoc) [] tsDoc).
Qed.

(** C1, as stated, fails for a document without grammar: the editor
    has a block for the position, yet it is never asked and the query
    returns nothing. *)
Lemma getComment_no_grammar_skips_editor :
  Extension.selectionContains (Some txtEditor) txtQuery
    = Some (mkBlock false (mkRange (mkPosition 0 0) (mkPosition 0 5)) "hello")
  ∧ _documents txtOpened !! textDocument_uri txtQuery = Some txtDoc
  ∧ getComment createGrammar computeText humanize_words api
      (Extension.selectionContains (Some txtEditor)) txtQuery txtOpened
    = (None, txtOpened, [CreateGrammar "plaintext"]).
Proof. repeat split; reflexivity. Qed.

Lemma getComment_selection_first_witness :
  result (getComment createGrammar computeText humanize_words api
            (Extension.selectionContains (Some tsEditor)) tsQuery tsOpened)
  = Some (mkHover ["<en> do_it"] (mkRange (mkPosition 0 3) (mkPosition 0 8))).
Proof.
  pose proof (getComment_selection_first createGrammar computeText humanize_words api
                (Some tsEditor) tsQuery tsOpened) as (_ & _ & Hparsed & _).
  destruct (Hparsed tsDoc (mkParse tsDoc "source.ts" false) eq_refl eq_refl)
    as (_ & _ & Hblock).
  exact (Hblock _ eq_refl).
Defined.

(** C2 at a failing input.  [otherDoc] is open, its language has no
    grammar, and its key is the one of [objcDoc]: after a query on
    [objcDoc], a query on [otherDoc] is served the cached parse of
    [objcDoc], runs the pipeline and the translation and returns a
    hover. *)
Theorem getComment_no_grammar_shared_key :
  reachable createGrammar objcCached
  ∧ _documents objcCached !! textDocument_uri otherQuery = Some otherDoc
  ∧ createGrammar (languageId otherDoc) = None
  ∧ key otherDoc = key objcDoc
  ∧ _getCommentParse createGrammar otherDoc objcCached
    = (Some (mkParse objcDoc "source.objc" false), objcCached, [])
  ∧ query createGrammar otherQuery objcCached
    = (Some (mkHover ["do it now => <en> do it now"]
               (mkRange (mkPosition 0 3) (mkPosition 0 12))),
       objcCached,
       [SelectionContains otherQuery;
        ComputeText (mkParse objcDoc "source.objc" false) (mkPosition 0 5);
        Translate "do it now" "en"]).
Proof. split; [apply objcCached_reachable|]. repeat split; reflexivity. Qed.

(** C3 at a failing input.  A query on [tsDoc] misses the cache and
    waits for the grammar; the document is closed; the query resumes
    and stores its parse.  The cache then holds an entry although no
    document is open.  When the document is opened again with another
    text before the query resumes, the entry is stored after the
    deletion that the opening caused, and the next query runs the
    pipeline on the parse of the text of the closed document. *)
Theorem parse_cache_entry_after_close :
  reachable createGrammar resumedAfterClose
  ∧ _documents resumedAfterClose = ∅
  ∧ _commentParseCache resumedAfterClose !! key tsDoc
    = Some (mkParse tsDoc "source.ts" false)
  ∧ reachable createGrammar resumedAfterReopen
  ∧ _documents resumedAfterReopen !! textDocument_uri tsQuery = Some tsRewritten
  ∧ query createGrammar tsQuery resumedAfterReopen
    = (Some (mkHover ["do it now => <en> do it now"]
               (mkRange (mkPosition 0 3) (mkPosition 0 12))),
       resumedAfterReopen,
       [SelectionContains tsQuery;
        ComputeText (mkParse tsDoc "source.ts" false) (mkPosition 0 5);
        Translate "do it now" "en"]).
Proof.
  split; [exists []; apply resumedAfterClose_running|].
  split; [reflexivity|]. split; [reflexivity|].
  split; [exists []; apply resumedAfterReopen_running|].
  split; reflexivity.
Qed.



(** C4 at a failing input.  The document was queried while
    [multiLineMerge] was off; [setSetting] then turns it on and picks
    French.  The next query translates to French, but extracts with the
    parse built while the flag was off; only after a content change is
    the new value used. *)
Theorem setSetting_multiLineMerge_not_observed :
  reachable createGrammar tsReconfigured
  ∧ _setting tsReconfigured = mkSettings true "fr"
  ∧ trace (query createGrammar tsQuery tsReconfigured)
    = [SelectionContains tsQuery;
       ComputeText (mkParse tsDoc "source.ts" false) (mkPosition 0 5);
       Translate "do it now" "fr"]
  ∧ trace (query createGrammar tsQuery (changed tsDoc 2 "// do_it_now" tsReconfigured))
    = [CreateGrammar "typescript";
       SelectionContains tsQuery;
       ComputeText (mkParse (mkDoc "file:///a.ts" "typescript" 2 "// do_it_now")
                      "source.ts" true) (mkPosition 0 5);
       Translate "do it now" "fr"].
Proof. split; [apply tsReconfigured_reachable|]. repeat split; reflexivity. Qed.

Lemma getComment_translates_humanized_witness :
  filter (λ e, is_Translate e = true) (trace (query createGrammar tsQuery tsOpened))
  = [Translate "do it now" "en"].
Proof.
  exact (proj1 (getComment_translates_humanized createGrammar computeText
                  humanize_words api noSelection tsQuery tsDoc
                  (mkParse tsDoc "source.ts" false)
                  (mkBlock true (mkRange (mkPosition 0 3) (mkPosition 0 12)) "do_it_now")
                  tsOpened eq_refl eq_refl eq_refl)).
Defined.

Lemma getComment_twice_witness :
  result (query createGrammar tsQuery (after (query createGrammar tsQuery tsOpened)))
  = result (query createGrammar tsQuery tsOpened)
  ∧ trace (query createGrammar tsQuery tsOpened)
    = [CreateGrammar "typescript"]
      ++ trace (query createGrammar tsQuery (after (query createGrammar tsQuery tsOpened))).
Proof.
  pose proof (getComment_twice createGrammar computeText humanize_words api noSelection
                tsQuery tsOpened) as (Hsame & _ & _ & _ & Hreuse).
  split; [exact Hsame|].
  exact (proj2 (Hreuse tsDoc (mkParse tsDoc "source.ts" false) eq_refl eq_refl)).
Defined.

(** The stored code is the value of the first language with the wanted
    name, or ["en"]. *)
Lemma setSetting_preferredLanguage {IGrammar} languages newSetting (c : @Comment IGrammar) :
  preferredLanguage (_setting (setSetting languages newSetting c))
  = match find (λ element, String.eqb (name element) (wanted_name newSetting c))
            languages with
    | Some l => value l
    | None => "en"
    end.
Proof. reflexivity. Qed.

(** C8 at a failing input.  French is stored as ["fr"]; a later call
    without preferred language looks ["fr"] up as a name, finds no such
    language and stores ["en"].  The same happens to the user language
    the class starts with. *)
Theorem setSetting_stored_language_reset :
  preferredLanguage (_setting tsReconfigured) = "fr"
  ∧ preferredLanguage
      (_setting (setSetting languages (mkNewSetting true None) tsReconfigured)) = "en"
  ∧ preferredLanguage
      (_setting (setSetting languages (mkNewSetting true (Some "")) tsReconfigured)) = "en"
  ∧ preferredLanguage
      (_setting (setSetting languages (mkNewSetting false None)
                   (@constructor string "fr" ∅))) = "en".
Proof. repeat split; reflexivity. Qed.

Lemma updateLanguageList_front_unique_witness :
  NoDup (Extension.updateLanguageList "en" ["fr"; "en"; "de"])
  ∧ Extension.updateLanguageList "en" ["fr"; "en"; "de"] = ["en"; "fr"; "de"].
Proof.
  assert (Hnd : NoDup ["fr"; "en"; "de"]).
  { apply (bool_decide_unpack _). vm_compute. exact I. }
  destruct (proj2 (updateLanguageList_front_unique "en" ["fr"; "en"; "de"]) Hnd)
    as (Hnodup & Heq & _).
  split; [exact Hnodup|]. rewrite Heq. reflexivity.
Defined.

End Examples.

(** * Further properties of the editor side *)

Section RecentlyUsed.
Import Extension.

Lemma spliced_subset lang l x : x ∈ spliced lang l → x ∈ l.
Proof.
  unfold spliced. revert x. induction l as [|y l IH]; intros x; [done|]. simpl.
  destruct (String.eqb y lang); simpl.
  - intros Hx. by apply elem_of_cons; right.
  - destruct (findIndex _ l) as [i|]; simpl in *; [|done].
    intros [->|Hx]%elem_of_cons; [by apply elem_of_cons; left|].
    apply elem_of_cons. right. by apply IH.
Qed.

Lemma spliced_keeps lang l x : x ∈ l → x ≠ lang → x ∈ spliced lang l.
Proof.
  unfold spliced. induction l as [|y l IH]; intros Hx Hne; [done|]. simpl.
  apply elem_of_cons in Hx as [->|Hx].
  - destruct (String.eqb_spec y lang) as [->|_]; [done|].
    destruct (findIndex _ l); simpl; apply elem_of_cons; by left.
  - destruct (String.eqb_spec y lang) as [->|_]; [done|].
    specialize (IH Hx Hne).
    destruct (findIndex _ l); simpl in *; apply elem_of_cons; by right.
Qed.

Lemma spliced_length lang l :
  length (spliced lang l)
  = if bool_decide (lang ∈ l) then pred (length l) else length l.
Proof.
  unfold spliced. induction l as [|y l IH]; [done|]. simpl.
  destruct (String.eqb_spec y lang) as [->|Hne]; simpl.
  - rewrite bool_decide_eq_true_2; [done|]. by apply elem_of_cons; left.
  - destruct (findIndex _ l) as [i|] eqn:Hfind; simpl in *.
    + case_bool_decide as Hin.
      * rewrite bool_decide_eq_true_2 by (by apply elem_of_cons; right).
        rewrite IH. destruct l; [by apply elem_of_nil in Hin|done].
      * rewrite bool_decide_eq_false_2; [by rewrite IH|].
        intros [?|?]%elem_of_cons; congruence.
    + case_bool_decide as Hin.
      * rewrite bool_decide_eq_true_2 by (by apply elem_of_cons; right).
        simpl in IH. destruct l; [by apply elem_of_nil in Hin|simpl in *; lia].
      * rewrite bool_decide_eq_false_2; [done|].
        intros [?|?]%elem_of_cons; congruence.
Qed.

Lemma updateLanguageList_elem lang l x :
  x ∈ updateLanguageList lang l ↔ x = lang ∨ x ∈ l.
Proof.
  unfold updateLanguageList. fold (spliced lang l). rewrite elem_of_cons. split.
  - intros [->|Hx]; [by left|right; by apply spliced_subset in Hx].
  - intros [->|Hx]; [by left|].
    destruct (decide (x = lang)) as [->|Hne]; [by left|].
    right. by apply spliced_keeps.
Qed.

(** Promoting the language that is already first changes nothing. *)
Lemma updateLanguageList_idempotent (lang : string) (recentlyUsed : list string) :
  updateLanguageList lang (updateLanguageList lang recentlyUsed)
  = updateLanguageList lang recentlyUsed.
Proof. unfold updateLanguageList. simpl. by rewrite String.eqb_refl. Qed.

(** X1. [updateLanguageList] neither loses nor invents a language: the
    new list holds the promoted language and the former elements, and
    it grows by one exactly when the language was not listed. *)
Theorem updateLanguageList_elements (lang : string) (recentlyUsed : list string) :
  (∀ x, x ∈ updateLanguageList lang recentlyUsed ↔ x = lang ∨ x ∈ recentlyUsed)
  ∧ length (updateLanguageList lang recentlyUsed)
    = if bool_decide (lang ∈ recentlyUsed) then length recentlyUsed
      else S (length recentlyUsed).
Proof.
  split; [intros x; apply updateLanguageList_elem|].
  unfold updateLanguageList. fold (spliced lang recentlyUsed).
  - simpl. rewrite spliced_length. case_bool_decide as Hin; [|done].
    destruct recentlyUsed; [by apply elem_of_nil in Hin|done].
Qed.

Lemma updateLanguageList_others lang l :
  NoDup l → updateLanguageList lang l = lang :: others lang l.
Proof.
  intros Hnd. unfold updateLanguageList. fold (spliced lang l).
  by rewrite spliced_others.
Qed.

Lemma recentlyUsedAfter_snoc picks lang :
  recentlyUsedAfter (picks ++ [lang])
  = updateLanguageList lang (recentlyUsedAfter picks).
Proof. unfold recentlyUsedAfter. by rewrite foldl_app. Qed.

Lemma recentlyUsedAfter_NoDup picks : NoDup (recentlyUsedAfter picks).
Proof.
  induction picks as [|lang picks IH] using rev_ind; [constructor|].
  rewrite recentlyUsedAfter_snoc, updateLanguageList_others by done.
  apply NoDup_cons. split; [apply others_lacks|].
  unfold others. by apply NoDup_filter.
Qed.

(** X2. The recently used list, which starts empty, never holds a
    language twice; it holds exactly the languages picked so far, and
    a pick puts its language in front of the others, whose order is
    kept. *)
Theorem recentlyUsedAfter_distinct (picks : list string) :
  NoDup (recentlyUsedAfter picks)
  ∧ (∀ x, x ∈ recentlyUsedAfter picks ↔ x ∈ picks)
  ∧ ∀ lang, recentlyUsedAfter (picks ++ [lang])
            = lang :: others lang (recentlyUsedAfter picks).
Proof.
  split; [apply recentlyUsedAfter_NoDup|]. split.
  - induction picks as [|lang picks IH] using rev_ind; [done|].
    intros x. rewrite recentlyUsedAfter_snoc.
    rewrite updateLanguageList_elem, IH, elem_of_app, list_elem_of_singleton. tauto.
  - intros lang. rewrite recentlyUsedAfter_snoc.
    apply updateLanguageList_others, recentlyUsedAfter_NoDup.
Qed.

End RecentlyUsed.

Section PromiseFacts.
Import Extension.

Context {Selection : Type}.
Variable gti : string → TranslateOptions → Reply.
Variable humanizeString : string → string.
Variable camelcase : string → string.
Variable getProxyConfig : ProxyConfig.

Lemma truthy_false s : truthy s = false ↔ s = "".
Proof.
  unfold truthy. destruct (String.eqb_spec s ""); simpl; split; congruence.
Qed.

(** X3. A first response whose text is non-empty and differs from the
    input resolves the promise with that text as it is, after a single
    call. *)
Theorem getTranslationPromise_other_text (selectedText selectedLanguage : string)
    (selection : Selection) (translateRes : TranslatorRes) :
  translate gti selectedText (translationConfiguration getProxyConfig selectedLanguage)
    = Fulfilled (Some translateRes) →
  res_text translateRes ≠ "" →
  res_text translateRes ≠ selectedText →
  getTranslationPromise gti humanizeString camelcase getProxyConfig
    selectedText selectedLanguage selection
  = (Resolved selection (res_text translateRes), [selectedText]).
Proof.
  intros Hfirst Htext Hother. unfold getTranslationPromise. rewrite Hfirst.
  apply truthy_spec in Htext. rewrite Htext.
  by destruct (String.eqb_spec (res_text translateRes) selectedText).
Qed.

(** X4. When the first call fails, answers without a response, or
    answers with an empty text, the promise rejects after that single
    call; the error of a failed call is appended to the message. *)
Theorem getTranslationPromise_first_call_unusable (selectedText selectedLanguage : string)
    (selection : Selection) :
  let first := translate gti selectedText
                 (translationConfiguration getProxyConfig selectedLanguage) in
  let run := getTranslationPromise gti humanizeString camelcase getProxyConfig
               selectedText selectedLanguage selection in
  (∀ message, first = Failed message →
     run = (Rejected ("Google Translation API issue: " +:+ message), [selectedText]))
  ∧ (first = Fulfilled None →
     run = (Rejected "Google Translation API issue", [selectedText]))
  ∧ (∀ translateRes, first = Fulfilled (Some translateRes) →
       res_text translateRes = "" →
       run = (Rejected "Google Translation API issue", [selectedText])).
Proof.
  intros first run. subst first run. unfold getTranslationPromise.
  split; [|split].
  - by intros message ->.
  - by intros ->.
  - by intros translateRes -> ->.
Qed.

(** X5. The promise is left unsettled in exactly one situation: the
    first response repeats a non-empty input and the second call fails
    or answers without a response. *)
Theorem getTranslationPromise_pending (selectedText selectedLanguage : string)
    (selection : Selection) :
  let configuration := translationConfiguration getProxyConfig selectedLanguage in
  let run := getTranslationPromise gti humanizeString camelcase getProxyConfig
               selectedText selectedLanguage selection in
  run.1 = Pending ↔
  ∃ translateRes,
    translate gti selectedText configuration = Fulfilled (Some translateRes)
    ∧ res_text translateRes = selectedText
    ∧ selectedText ≠ ""
    ∧ (translate gti (humanizeString selectedText) configuration = Fulfilled None
       ∨ ∃ message,
           translate gti (humanizeString selectedText) configuration = Failed message).
Proof.
  intros configuration run. subst run. unfold getTranslationPromise.
  fold configuration.
  destruct (translate gti selectedText configuration) as [[r1|]|m1] eqn:Hfirst;
    simpl.
  2,3: split; [done|by intros (? & ? & _)].
  destruct (truthy (res_text r1)) eqn:Htext; simpl.
  2:{ split; [done|]. intros (r & [= <-] & Hsame & Hne & _).
      apply truthy_false in Htext. congruence. }
  destruct (String.eqb_spec (res_text r1) selectedText) as [Hsame|Hother]; simpl.
  2:{ split; [done|]. intros (r & [= <-] & Hsame & _). done. }
  apply truthy_spec in Htext.
  destruct (translate gti (humanizeString selectedText) configuration)
    as [[r2|]|m2] eqn:Hsecond.
  - split; [by destruct (truthy (res_text r2))|].
    intros (r & _ & _ & _ & [?|[? ?]]); done.
  - split; [|done]. intros _. exists r1. repeat split; try done.
    + congruence.
    + by left.
  - split; [|done]. intros _. exists r1. repeat split; try done.
    + congruence.
    + right. by exists m2.
Qed.

(** X6. Without a proxy host in the configuration the translation
    package is always asked for English, so the outcome does not depend
    on the selected language; with a proxy host the selected language is
    passed on. *)
Theorem getTranslationPromise_target_language (selectedLanguage : string) :
  options_to (gotopts (translationConfiguration getProxyConfig selectedLanguage))
  = (if is_set (host getProxyConfig) then selectedLanguage else "en")
  ∧ (is_set (host getProxyConfig) = false →
     ∀ selectedText otherLanguage (selection : Selection),
       getTranslationPromise gti humanizeString camelcase getProxyConfig
         selectedText selectedLanguage selection
       = getTranslationPromise gti humanizeString camelcase getProxyConfig
           selectedText otherLanguage selection).
Proof.
  split.
  - unfold gotopts, translationConfiguration. simpl.
    by destruct (is_set (host getProxyConfig)).
  - intros Hhost selectedText otherLanguage selection.
    unfold getTranslationPromise, translate, gotopts, translationConfiguration.
    simpl. by rewrite Hhost.
Qed.

(** X7. The proxy is used exactly when a proxy host is configured, and
    credentials are sent to it exactly when both the user name and the
    password are configured. *)
Theorem gotopts_proxy (selectedLanguage : string) :
  let options := gotopts (translationConfiguration getProxyConfig selectedLanguage) in
  (options_proxy options = None ↔ is_set (host getProxyConfig) = false)
  ∧ ∀ p, options_proxy options = Some p →
      host getProxyConfig = Some (proxy_host p)
      ∧ (is_Some (auth p) ↔
           is_set (proxy_username getProxyConfig) = true
           ∧ is_set (proxy_password getProxyConfig) = true)
      ∧ ∀ credentials, auth p = Some credentials →
          proxy_username getProxyConfig = Some (username credentials)
          ∧ proxy_password getProxyConfig = Some (password credentials).
Proof.
  intros options. subst options. unfold gotopts, translationConfiguration. simpl.
  destruct (host getProxyConfig) as [h|] eqn:Hhost; simpl; [|by split].
  destruct (truthy h) eqn:Hh; simpl; [|by split].
  split; [by split|]. intros p [= <-]. simpl. split; [done|].
  destruct (proxy_username getProxyConfig) as [u|]; simpl.
  2:{ split; [split; [by intros [? ?]|by intros [? _]]|done]. }
  destruct (proxy_password getProxyConfig) as [w|]; simpl.
  2:{ rewrite andb_false_r. split; [split; [by intros [? ?]|by intros [_ ?]]|done]. }
  destruct (truthy u), (truthy w); simpl.
  - split; [split; [done|by eexists]|]. by intros credentials [= <-].
  - split; [split; [by intros [? ?]|by intros [? ?]]|done].
  - split; [split; [by intros [? ?]|by intros [? ?]]|done].
  - split; [split; [by intros [? ?]|by intros [? ?]]|done].
Qed.

Lemma getTranslationPromise_selection selectedText selectedLanguage
    (selection resolved : Selection) translation :
  (getTranslationPromise gti humanizeString camelcase getProxyConfig
     selectedText selectedLanguage selection).1 = Resolved resolved translation →
  resolved = selection.
Proof.
  unfold getTranslationPromise.
  destruct (translate gti selectedText _) as [[r1|]|]; simpl; try done.
  destruct (truthy (res_text r1)); simpl; [|done].
  destruct (String.eqb _ _); simpl; [|by intros [= <- _]].
  destruct (translate gti (humanizeString selectedText) _) as [[r2|]|]; try done.
  destruct (truthy (res_text r2)); simpl; [|done]. by intros [= <- _].
Qed.

End PromiseFacts.

Section CommandFacts.
Import Extension.

Variable gti : string → TranslateOptions → Reply.
Variable humanizeString : string → string.
Variable camelcase : string → string.
Variable getProxyConfig : ProxyConfig.
Variable Range_of : Position → Position → Range.
Variable decode : string → string.
Variable Languages : list Comment.Language.

Lemma map_lookup_Some {A B} (f : A → B) (l : list A) i y :
  map f l !! i = Some y → ∃ x, l !! i = Some x ∧ y = f x.
Proof.
  revert i. induction l as [|x l IH]; intros [|i]; simpl; try done.
  - intros [= <-]. by exists x.
  - apply IH.
Qed.

(** X8. The promises for the lines under the cursor are built from the
    same text as those for the selections: both helpers read the range
    from the selection's start to its end. *)
Theorem getTranslationsPromiseArrayLine_same (selections : list Range)
    (document : Range → string) (selectedLanguage : string) :
  getTranslationsPromiseArrayLine gti humanizeString camelcase getProxyConfig Range_of
    selections document selectedLanguage
  = getTranslationsPromiseArray gti humanizeString camelcase getProxyConfig Range_of
      selections document selectedLanguage
  ∧ ∀ selection,
      getSelectedLineText Range_of document selection
      = getSelectedText Range_of document selection.
Proof.
  assert (Hsame : ∀ selection,
            getSelectedLineText Range_of document selection
            = getSelectedText Range_of document selection).
  { intros [[l1 c1] [l2 c2]]. reflexivity. }
  split; [|done].
  unfold getTranslationsPromiseArrayLine, getTranslationsPromiseArray.
  apply map_ext. intros selection. simpl. by rewrite Hsame.
Qed.

(** X9. There is one promise per selection, in the order of the
    selections, and a promise that resolves carries the selection whose
    text it translated. *)
Theorem getTranslationsPromiseArray_selections (selections : list Range)
    (document : Range → string) (selectedLanguage : string) :
  let promises := getTranslationsPromiseArray gti humanizeString camelcase
                    getProxyConfig Range_of selections document selectedLanguage in
  length promises = length selections
  ∧ ∀ i selection promise, selections !! i = Some selection →
      promises !! i = Some promise →
      promise = getTranslationPromise gti humanizeString camelcase getProxyConfig
                  (getSelectedText Range_of document selection) selectedLanguage
                  selection
      ∧ ∀ resolved translation, promise.1 = Resolved resolved translation →
          resolved = selection.
Proof.
  intros promises. subst promises. unfold getTranslationsPromiseArray.
  split; [apply length_map|].
  intros i selection promise Hsel Hpromise.
  apply map_lookup_Some in Hpromise.
  assert (Heq : promise
    = getTranslationPromise gti humanizeString camelcase getProxyConfig
        (getSelectedText Range_of document selection) selectedLanguage selection).
  { destruct Hpromise as (selection' & Hsel' & ->). congruence. }
  split; [done|]. subst promise. intros resolved translation.
  apply getTranslationPromise_selection.
Qed.

End CommandFacts.

Section EditorFacts.
Import Extension.

Variable gti : string → TranslateOptions → Reply.
Variable humanizeString : string → string.
Variable camelcase : string → string.
Variable getProxyConfig : ProxyConfig.
Variable Range_of : Position → Position → Range.
Variable decode : string → string.
Variable Languages : list Comment.Language.



Lemma find_name_Some (n : string) l :
  find (λ element, String.eqb (Comment.name element) n) Languages = Some l →
  l ∈ Languages ∧ Comment.name l = n.
Proof.
  intros [Hin Hname]%find_some. split; [by apply list_elem_of_In|].
  by apply String.eqb_eq.
Qed.

Lemma find_name_None (n : string) :
  find (λ element, String.eqb (Comment.name element) n) Languages = None →
  ∀ l, l ∈ Languages → Comment.name l ≠ n.
Proof.
  intros Hnone l Hin%list_elem_of_In Hname.
  pose proof (find_none _ _ Hnone l Hin) as Hne. simpl in Hne.
  apply String.eqb_neq in Hne. done.
Qed.

Lemma find_name_first (n : string) (before rest : list Comment.Language) l :
  Comment.name l = n →
  (∀ l', l' ∈ before → Comment.name l' ≠ n) →
  find (λ element, String.eqb (Comment.name element) n) (before ++ l :: rest) = Some l.
Proof.
  intros Hname. induction before as [|l0 before IH]; intros Hbefore; simpl.
  - by rewrite Hname, String.eqb_refl.
  - destruct (String.eqb_spec (Comment.name l0) n) as [Heq|_].
    + destruct (Hbefore l0); [by apply elem_of_cons; left|done].
    + apply IH. intros l' Hin. apply Hbefore. by apply elem_of_cons; right.
Qed.

(** X10. The target computed from the preferred language is the value
    of the first language of the table with that name, and ["en"] when
    the name is missing or no language has it; with a table without
    empty values it is never empty, so the commands that use it never
    stop for a missing target. *)
Theorem locale_default (preferredLanguage : option string) :
  (∀ n before l rest,
     preferredLanguage = Some n → Languages = before ++ l :: rest →
     Comment.name l = n → (∀ l', l' ∈ before → Comment.name l' ≠ n) →
     locale Languages preferredLanguage = Comment.value l)
  ∧ (preferredLanguage = None → locale Languages preferredLanguage = "en")
  ∧ (∀ n, preferredLanguage = Some n →
          (∀ l, l ∈ Languages → Comment.name l ≠ n) →
          locale Languages preferredLanguage = "en")
  ∧ ((∀ l, l ∈ Languages → Comment.value l ≠ "") →
     truthy (locale Languages preferredLanguage) = true).
Proof.
  split; [|split; [|split]].
  - intros n before l rest -> Hsplit Hname Hbefore. unfold locale.
    by rewrite Hsplit, (find_name_first n before rest l Hname Hbefore).
  - by intros ->.
  - intros n -> Hnone. unfold locale.
    destruct (find _ Languages) as [l|] eqn:Hfind; [|done].
    destruct (find_name_Some n l Hfind) as [Hin Hname]. by destruct (Hnone l Hin).
  - intros Hvalues. unfold locale. destruct preferredLanguage as [n|]; [|done].
    destruct (find _ Languages) as [l|] eqn:Hfind; [|done].
    destruct (find_name_Some n l Hfind) as [Hin _].
    apply truthy_spec. by apply Hvalues.
Qed.

(** X11. [translateText] without editor, or with a dismissed or empty
    pick, sends nothing, edits nothing and leaves the recently used
    list alone; with a pick it asks for one translation per selection
    and promotes the picked language when the table has it. *)
Theorem translateText_pick (activeTextEditor : option TextEditor)
    (picked : option string) (recentlyUsed : list string) :
  let run := translateText gti humanizeString camelcase getProxyConfig Range_of decode
               Languages activeTextEditor picked recentlyUsed in
  ((activeTextEditor = None ∨ picked = None ∨ picked = Some "") →
   run = mkRun recentlyUsed [] None)
  ∧ ∀ editor selectedLanguage,
      activeTextEditor = Some editor → picked = Some selectedLanguage →
      selectedLanguage ≠ "" →
      length (run_sent run) = length (selections editor)
      ∧ run_recentlyUsed run
        = (if bool_decide (selectedLanguage ∈ map Comment.name Languages)
           then updateLanguageList selectedLanguage recentlyUsed
           else recentlyUsed).
Proof.
  intros run. subst run. unfold translateText, idle. split.
  - intros [->|[->| ->]]; [done| |]; by destruct activeTextEditor.
  - intros editor selectedLanguage -> -> Hne.
    apply truthy_spec in Hne. rewrite Hne. simpl. split.
    + unfold getTranslationsPromiseArray. by rewrite !length_map.
    + destruct (find _ Languages) as [l|] eqn:Hfind.
      * destruct (find_name_Some _ l Hfind) as [Hin Hname].
        rewrite bool_decide_eq_true_2; [by rewrite Hname|].
        apply list_elem_of_In, in_map_iff. exists l.
        by rewrite <- list_elem_of_In.
      * rewrite bool_decide_eq_false_2; [done|].
        intros (l & Hname & Hin%list_elem_of_In)%list_elem_of_In%in_map_iff.
        by apply (find_name_None _ Hfind l).
Qed.


End EditorFacts.

Section ServerStartFacts.
Import Extension.

Variable Languages : list Comment.Language.

(** The languages an extension adds to [canLanguages]. *)
Lemma collect_canLanguages (extAll : list VsExtension) (acc : Collected) :
  canLanguages (foldl (collect_step Languages) acc extAll)
  = canLanguages acc
    ++ flat_map (λ extension,
                   map grammar_language (default [] (contributed_grammars extension)))
                extAll.
Proof.
  revert acc. induction extAll as [|extension extAll IH]; intros acc; simpl.
  - by rewrite app_nil_r.
  - rewrite IH. unfold collect_step, contributed_grammars.
    destruct (contributes extension) as [c|]; simpl; [|done].
    destruct (grammars c); simpl; [|done]. by rewrite <- app_assoc.
Qed.

Lemma collect_grammarExtensions (extAll : list VsExtension) (acc : Collected) :
  grammarExtensions (foldl (collect_step Languages) acc extAll)
  = grammarExtensions acc
    ++ omap (λ extension,
               (λ gs, mkGrammarExtension Languages gs (extensionPath extension))
                 <$> contributed_grammars extension)
            extAll.
Proof.
  revert acc. induction extAll as [|extension extAll IH]; intros acc; simpl.
  - by rewrite app_nil_r.
  - rewrite IH. unfold collect_step, contributed_grammars.
    destruct (contributes extension) as [c|]; simpl; [|done].
    destruct (grammars c); simpl; [|done]. by rewrite <- app_assoc.
Qed.

(** X13. The hover server is started for exactly the non-empty
    languages of the contributed grammars, except [log] and [Log]; and
    one grammar entry is handed to it per extension that contributes
    grammars, in the order of the extensions. *)
Theorem documentSelector_languages (extAll : list VsExtension) :
  (∀ v, v ∈ documentSelector Languages extAll ↔
        v ≠ "" ∧ v ≠ "log" ∧ v ≠ "Log"
        ∧ ∃ extension gs g,
            extension ∈ extAll ∧ contributed_grammars extension = Some gs
            ∧ g ∈ gs ∧ grammar_language g = Some v)
  ∧ map (λ e, (ge_value e, extensionLocation e))
        (grammarExtensions (collect Languages extAll))
    = omap (λ extension,
              (λ gs, (gs, extensionPath extension)) <$> contributed_grammars extension)
           extAll.
Proof.
  split.
  - intros v. unfold documentSelector, collect.
    rewrite list_elem_of_filter, list_elem_of_omap, collect_canLanguages. simpl.
    split.
    + intros (Hblack & o & Ho & Hnamed).
      destruct o as [l|]; [|done]. simpl in Hnamed.
      destruct (truthy l) eqn:Hl; [|done]. injection Hnamed as ->.
      apply truthy_spec in Hl.
      apply list_elem_of_In, in_flat_map in Ho as (extension & Hext & Hin).
      apply in_map_iff in Hin as (g & Hg & Hin).
      destruct (contributed_grammars extension) as [gs|] eqn:Hgs; [|done].
      split; [done|]. split; [|split].
      * intros ->. apply Hblack. unfold BlackLanguage. apply elem_of_cons. by left.
      * intros ->. apply Hblack. unfold BlackLanguage.
        apply elem_of_cons. right. apply elem_of_cons. by left.
      * exists extension, gs, g. by rewrite <- !list_elem_of_In in *.
    + intros (Hne & Hlog1 & Hlog2 & extension & gs & g & Hext & Hgs & Hg & Hv).
      split.
      * unfold BlackLanguage. intros [?|Hin]%elem_of_cons; [done|].
        apply elem_of_cons in Hin as [?|Hin]; [done|]. by apply elem_of_nil in Hin.
      * exists (Some v). split.
        -- apply list_elem_of_In, in_flat_map. exists extension.
           split; [by apply list_elem_of_In|]. rewrite Hgs. simpl.
           apply in_map_iff. exists g. split; [done|by apply list_elem_of_In].
        -- simpl. apply truthy_spec in Hne. by rewrite Hne.
  - unfold collect. rewrite collect_grammarExtensions. simpl.
    induction extAll as [|extension extAll IH]; [done|]. simpl.
    destruct (contributed_grammars extension); simpl; [f_equal|]; apply IH.
Qed.

(** How [find] picks: the first element that qualifies. *)
Lemma find_first {A} (f : A → bool) (l : list A) x :
  find f l = Some x →
  ∃ before rest, l = before ++ x :: rest ∧ f x = true
                 ∧ Forall (λ y, f y = false) before.
Proof.
  induction l as [|y l IH]; [done|]. simpl.
  destruct (f y) eqn:Hy.
  - intros [= <-]. by exists [], l.
  - intros (before & rest & -> & Hx & Hbefore)%IH.
    exists (y :: before), rest. repeat split; [done|]. by constructor.
Qed.

(** X14. With several selections the editor answers with the first
    non-empty one that contains the position: the block's range is that
    selection and its comment the document text of it, and every
    earlier selection is empty or does not contain the position. *)
Theorem selectionContains_first (editor : TextEditor)
    (p : TextDocumentPositionParams) (b : ICommentBlock) :
  selectionContains (Some editor) p = Some b →
  ∃ before selection rest,
    selections editor = before ++ selection :: rest
    ∧ b = mkBlock false selection (document_getText editor selection)
    ∧ isEmpty selection = false ∧ contains selection (position p) = true
    ∧ Forall (λ s, isEmpty s = true ∨ contains s (position p) = false) before.
Proof.
  unfold selectionContains. destruct (String.eqb _ _); [|done].
  destruct p as [u [l ch]]. simpl.
  destruct (find _ (selections editor)) as [selection|] eqn:Hfind; [|done].
  intros [= <-]. apply find_first in Hfind as (before & rest & Hsplit & Hsel & Hbefore).
  apply andb_true_iff in Hsel as [Hne%negb_true_iff Hcontains].
  exists before, selection, rest. repeat split; try done.
  eapply Forall_impl; [exact Hbefore|]. simpl. intros s Hs.
  apply andb_false_iff in Hs as [Hs%negb_false_iff|Hs]; [by left|by right].
Qed.

End ServerStartFacts.

(** * Further properties of the [Comment] class *)

Section ServerFacts.
Import Comment Lifecycle.

Context {IGrammar : Type}.
Variable createGrammar : string → option IGrammar.
Variable computeText : @CommentParse IGrammar → Position → option ICommentBlock.
Variable humanizeString : string → string.
Variable api : string → string → option string.
Variable languages : list Language.
Variable host : TextDocumentPositionParams → option ICommentBlock.

Lemma getCommentParse_trace_cases d (c : @Comment IGrammar) :
  trace (_getCommentParse createGrammar d c) = []
  ∨ trace (_getCommentParse createGrammar d c) = [CreateGrammar (languageId d)].
Proof.
  unfold _getCommentParse, mbind, mret, M_bind, M_ret, this, emit, update,
    result, after, trace. simpl.
  destruct (_commentParseCache c !! key d); [by left|].
  destruct (createGrammar (languageId d)); by right.
Qed.

(** X15. A query costs at most one call to the grammar registry, one
    request to the editor, one run of the pipeline and one translation;
    the translation service is called exactly when a hover is
    returned. *)
Theorem getComment_calls (p : TextDocumentPositionParams) (c : @Comment IGrammar) :
  let run := getComment createGrammar computeText humanizeString api host p c in
  (length (filter (λ e, is_CreateGrammar e = true) (trace run)) ≤ 1)%nat
  ∧ (length (filter (λ e, is_SelectionContains e = true) (trace run)) ≤ 1)%nat
  ∧ (length (filter (λ e, is_ComputeText e = true) (trace run)) ≤ 1)%nat
  ∧ length (filter (λ e, is_Translate e = true) (trace run))
    = match result run with Some _ => 1%nat | None => 0%nat end.
Proof.
  intros run. subst run.
  destruct (_documents c !! textDocument_uri p) as [d|] eqn:Hd.
  2:{ rewrite (getComment_not_open _ _ _ _ _ p c Hd). vm_compute. lia. }
  destruct (result (_getCommentParse createGrammar d c)) as [parse|] eqn:Hp.
  - rewrite (getComment_parsed _ _ _ _ _ p d parse c Hd Hp).
    rewrite trace_tuple, result_tuple. unfold block_events, chosen_block.
    destruct (getCommentParse_trace_cases d c) as [-> | ->];
      destruct (host p) as [b|]; simpl;
      try destruct (computeText parse (position p)) as [b|]; simpl;
      vm_compute; lia.
  - rewrite (getComment_no_parse _ _ _ _ _ p d c Hd Hp).
    rewrite trace_tuple, result_tuple.
    destruct (getCommentParse_trace_cases d c) as [-> | ->]; vm_compute; lia.
Qed.

(** X16. A translation service that answers without a reply or
    without data ([!res || !res.data]) does not make the hover go away:
    the hover shows the error text in place of the translation, after
    the humanized text when there is one. *)
Theorem getComment_translation_error (p : TextDocumentPositionParams)
    (d : TextDocument) (parse : CommentParse) (b : ICommentBlock)
    (c : @Comment IGrammar) :
  _documents c !! textDocument_uri p = Some d →
  result (_getCommentParse createGrammar d c) = Some parse →
  chosen_block computeText host parse p = Some b →
  api (if humanize b then humanizeString (comment b) else comment b)
      (preferredLanguage (_setting c)) = None →
  result (getComment createGrammar computeText humanizeString api host p c)
  = Some (mkHover
            [if humanize b
             then humanizeString (comment b) +:+ " => Google Translate API Error"
             else "Google Translate API Error"]
            (range b)).
Proof.
  intros Hd Hp Hb Hapi.
  rewrite (getComment_parsed _ _ _ _ _ p d parse c Hd Hp), result_tuple, Hb.
  simpl. unfold hover_for, translated.
  destruct (humanize b); by rewrite Hapi.
Qed.

Lemma getComment_translate_target p (c : @Comment IGrammar) txt to :
  Translate txt to ∈ trace (getComment createGrammar computeText humanizeString api
                              host p c) →
  to = preferredLanguage (_setting c).
Proof.
  destruct (_documents c !! textDocument_uri p) as [d|] eqn:Hd.
  2:{ rewrite (getComment_not_open _ _ _ _ _ p c Hd). by intros ?%elem_of_nil. }
  destruct (result (_getCommentParse createGrammar d c)) as [parse|] eqn:Hp.
  - rewrite (getComment_parsed _ _ _ _ _ p d parse c Hd Hp), trace_tuple.
    intros [Hin%getCommentParse_trace|Hin]%elem_of_app; [done|].
    apply elem_of_app in Hin as [Hin|Hin].
    + unfold block_events in Hin. apply elem_of_cons in Hin as [?|Hin]; [done|].
      destruct (host p); [by apply elem_of_nil in Hin|].
      apply list_elem_of_singleton in Hin. done.
    + destruct (chosen_block computeText host parse p);
        [|by apply elem_of_nil in Hin].
      apply list_elem_of_singleton in Hin. by injection Hin as _ ->.
  - rewrite (getComment_no_parse _ _ _ _ _ p d c Hd Hp), trace_tuple.
    by intros Hin%getCommentParse_trace.
Qed.

Lemma find_language_Some n l :
  find_language languages n = Some l → l ∈ languages ∧ name l = n.
Proof.
  unfold find_language. intros [Hin Hname]%find_some.
  split; [by apply list_elem_of_In|]. by apply String.eqb_eq.
Qed.

(** X17. [setSetting] always stores ["en"] or the code of a language
    of the table.  When the argument names a language, the stored
    settings depend on the argument alone, so repeating the call
    changes nothing. *)
Theorem setSetting_given_language (newSetting : NewSetting) (c : @Comment IGrammar) :
  (preferredLanguage (_setting (setSetting languages newSetting c)) = "en"
   ∨ ∃ l, l ∈ languages
          ∧ preferredLanguage (_setting (setSetting languages newSetting c)) = value l)
  ∧ ∀ n, new_preferredLanguage newSetting = Some n → n ≠ "" →
      (∀ c' : @Comment IGrammar,
         _setting (setSetting languages newSetting c')
         = _setting (setSetting languages newSetting c))
      ∧ setSetting languages newSetting (setSetting languages newSetting c)
        = setSetting languages newSetting c.
Proof.
  split.
  - unfold setSetting. simpl.
    destruct (find_language languages (wanted_name newSetting c)) as [l|] eqn:Hfind;
      [|by left].
    right. exists l. split; [|done]. by apply find_language_Some in Hfind as [? _].
  - intros n Hn Hne. apply truthy_spec in Hne.
    assert (Hwanted : ∀ c' : @Comment IGrammar, wanted_name newSetting c' = n).
    { intros c'. unfold wanted_name. by rewrite Hn, Hne. }
    split.
    + intros c'. unfold setSetting. simpl. by rewrite !Hwanted.
    + unfold setSetting. simpl. by rewrite !Hwanted.
Qed.

(** X18. After [setSetting] every translation of a query goes to the
    code it stored: the value of the named language when the table has
    it, ["en"] when it has not. *)
Theorem setSetting_then_translate (newSetting : NewSetting)
    (p : TextDocumentPositionParams) (c : @Comment IGrammar) (txt to : string) :
  Translate txt to
    ∈ trace (getComment createGrammar computeText humanizeString api host p
               (setSetting languages newSetting c)) →
  to = preferredLanguage (_setting (setSetting languages newSetting c))
  ∧ ∀ n, new_preferredLanguage newSetting = Some n → n ≠ "" →
      (∀ l, find_language languages n = Some l → to = value l)
      ∧ (find_language languages n = None → to = "en").
Proof.
  intros Hin%getComment_translate_target. split; [done|].
  intros n Hn Hne. apply truthy_spec in Hne. subst to.
  unfold setSetting, wanted_name. simpl. rewrite Hn, Hne.
  split; [by intros l ->|by intros ->].
Qed.


End ServerFacts.

(** * The further properties at concrete inputs *)

Section MoreExamples.
Import Comment Lifecycle Scenario.

Lemma getTranslationPromise_other_text_witness :
  Extension.getTranslationPromise shout humanize_words id noProxy "hello" "fr" tt
  = (Extension.Resolved tt "hello!", ["hello"]).
Proof.
  apply (getTranslationPromise_other_text shout humanize_words id noProxy
           "hello" "fr" tt (Extension.mkRes "hello!") eq_refl);
    discriminate.
Defined.

Lemma getTranslationPromise_first_call_unusable_witness :
  Extension.getTranslationPromise offline humanize_words id noProxy "hello" "fr" tt
  = (Extension.Rejected "Google Translation API issue: offline", ["hello"]).
Proof.
  exact (proj1 (getTranslationPromise_first_call_unusable offline humanize_words id
                  noProxy "hello" "fr" tt) "offline" eq_refl).
Defined.

Lemma getTranslationPromise_pending_witness :
  (Extension.getTranslationPromise echoThenOffline humanize_words id noProxy
     "do_it_now" "fr" tt).1 = Extension.Pending.
Proof.
  apply (getTranslationPromise_pending echoThenOffline humanize_words id noProxy
           "do_it_now" "fr" tt).
  exists (Extension.mkRes "do_it_now").
  split; [reflexivity|]. split; [reflexivity|]. split; [discriminate|].
  right. exists "offline". reflexivity.
Defined.

Lemma getTranslationPromise_target_language_witness :
  Extension.getTranslationPromise shout humanize_words id noProxy "hello" "fr" tt
  = Extension.getTranslationPromise shout humanize_words id noProxy "hello" "de" tt.
Proof.
  exact (proj2 (getTranslationPromise_target_language shout humanize_words id noProxy
                  "fr") eq_refl "hello" "de" tt).
Defined.

Lemma gotopts_proxy_witness :
  Extension.host proxied = Some "proxy.local"
  ∧ (is_Some (Some (Extension.mkAuth "me" "secret")) ↔
       Extension.is_set (Extension.proxy_username proxied) = true
       ∧ Extension.is_set (Extension.proxy_password proxied) = true).
Proof.
  destruct (proj2 (gotopts_proxy proxied "fr")
              (Extension.mkProxy "proxy.local" (Some "8080")
                 (Some (Extension.mkAuth "me" "secret"))) eq_refl)
    as (Hhost & Hauth & _).
  split; [exact Hhost|exact Hauth].
Defined.

Lemma getTranslationsPromiseArray_selections_witness :
  length (Extension.getTranslationsPromiseArray shout humanize_words id noProxy mkRange
            (Extension.selections twoSelections)
            (Extension.document_getText twoSelections) "fr") = 2.
Proof.
  exact (proj1 (getTranslationsPromiseArray_selections shout humanize_words id noProxy
                  mkRange (Extension.selections twoSelections)
                  (Extension.document_getText twoSelections) "fr")).
Defined.

Lemma locale_default_witness :
  Extension.locale languages (Some "French") = "fr"
  ∧ Extension.locale languages (Some "Klingon") = "en".
Proof.
  split.
  - apply (proj1 (locale_default languages (Some "French"))
             "French" [mkLanguage "English" "en"] (mkLanguage "French" "fr") []
             eq_refl eq_refl eq_refl).
    intros l' Hin. apply list_elem_of_singleton in Hin. by subst l'.
  - apply (proj1 (proj2 (proj2 (locale_default languages (Some "Klingon"))))
             "Klingon" eq_refl).
    intros l Hl. unfold languages in Hl.
    apply elem_of_cons in Hl as [->|Hl]; [discriminate|].
    apply elem_of_cons in Hl as [->|Hl]; [discriminate|].
    by apply elem_of_nil in Hl.
Defined.

Lemma translateText_pick_witness :
  Extension.run_recentlyUsed
    (Extension.translateText shout humanize_words id noProxy mkRange id languages
       (Some twoSelections) (Some "French") ["English"; "French"])
  = ["French"; "English"].
Proof.
  destruct (proj2 (translateText_pick shout humanize_words id noProxy mkRange id
                     languages (Some twoSelections) (Some "French")
                     ["English"; "French"])
              twoSelections "French" eq_refl eq_refl ltac:(discriminate))
    as [_ Hused].
  rewrite Hused. reflexivity.
Defined.


Lemma documentSelector_languages_witness :
  "typescript" ∈ Extension.documentSelector languages installed
  ∧ "log" ∉ Extension.documentSelector languages installed.
Proof.
  split.
  - apply (proj1 (documentSelector_languages languages installed)).
    repeat split; try discriminate.
    eexists _, _, (Extension.mkGrammar (Some "typescript")).
    split; [apply elem_of_cons; by left|].
    split; [reflexivity|]. split; [apply elem_of_cons; by left|reflexivity].
  - intros Hin.
    apply (proj1 (documentSelector_languages languages installed)) in Hin
      as (_ & Hlog & _).
    by apply Hlog.
Defined.

Lemma selectionContains_first_witness :
  ∃ before selection rest,
    Extension.selections twoSelections = before ++ selection :: rest
    ∧ Extension.contains selection (mkPosition 0 4) = true.
Proof.
  destruct (selectionContains_first twoSelections
              (mkParams "file:///a.ts" (mkPosition 0 4))
              (mkBlock false (mkRange (mkPosition 0 3) (mkPosition 0 8)) "hello")
              eq_refl)
    as (before & selection & rest & Hsplit & _ & _ & Hcontains & _).
  exists before, selection, rest. split; [exact Hsplit|exact Hcontains].
Defined.

Lemma getComment_translation_error_witness :
  result (getComment createGrammar computeText humanize_words noData noSelection
            tsQuery tsOpened)
  = Some (mkHover ["do it now => Google Translate API Error"]
            (mkRange (mkPosition 0 3) (mkPosition 0 12))).
Proof.
  exact (getComment_translation_error createGrammar computeText humanize_words noData
           noSelection tsQuery tsDoc (mkParse tsDoc "source.ts" false)
           (mkBlock true (mkRange (mkPosition 0 3) (mkPosition 0 12)) "do_it_now")
           tsOpened eq_refl eq_refl eq_refl eq_refl).
Defined.

Lemma setSetting_given_language_witness :
  setSetting languages (mkNewSetting true (Some "French")) tsReconfigured
  = tsReconfigured.
Proof.
  exact (proj2 (proj2 (setSetting_given_language languages
                         (mkNewSetting true (Some "French")) tsCached)
                  "French" eq_refl ltac:(discriminate))).
Defined.

Lemma setSetting_then_translate_witness :
  "fr" = preferredLanguage
           (_setting (setSetting languages (mkNewSetting true (Some "French")) tsCached)).
Proof.
  apply (setSetting_then_translate createGrammar computeText humanize_words api
           languages noSelection (mkNewSetting true (Some "French")) tsQuery tsCached
           "do it now" "fr").
  apply elem_of_cons. right. apply elem_of_cons. right. apply elem_of_cons. by left.
Defined.


End MoreExamples.
